(** * github-sidebar: the heading parser and the sidebar builder of [sidebar.py]

    A shallow embedding of [src/sidebar.py].  Python [str] values are Rocq
    [string]s; a character of type [ascii] stands for the code point of the
    same number, so the texts covered are those of code points below 256.
    Files are lists of lines, the output file is the list of the chunks
    handed to [sidebar.write], in order. *)

From Stdlib Require Import List Arith Bool Lia.
From Stdlib Require Import Sorting.Permutation Sorting.Sorted.
From Stdlib Require Import Strings.Ascii Strings.String.
Import ListNotations.
Open Scope string_scope.

(** ** Python [str] primitives used by the program *)

Module PyStr.

(** [str.isspace] on one character, which is also what [str.strip()]
    removes and what [\s] matches in a [str] pattern. *)
Definition isspace (c : ascii) : bool :=
  let n := nat_of_ascii c in
  (((9 <=? n) && (n <=? 13)) || ((28 <=? n) && (n <=? 32))
   || (n =? 133) || (n =? 160))%nat.

(** [\w] in a [str] pattern: alphanumeric characters and the underscore. *)
Definition isword (c : ascii) : bool :=
  let n := nat_of_ascii c in
  (((48 <=? n) && (n <=? 57)) || ((65 <=? n) && (n <=? 90)) || (n =? 95)
   || ((97 <=? n) && (n <=? 122))
   || (n =? 170) || (n =? 178) || (n =? 179) || (n =? 181) || (n =? 185)
   || (n =? 186) || ((188 <=? n) && (n <=? 190))
   || ((192 <=? n) && (n <=? 214)) || ((216 <=? n) && (n <=? 246))
   || (248 <=? n))%nat.

(** [str.lower] on one character of a code point below 256, where the
    lower case of a character is one character.  Beyond them [str.lower] can
    give two characters for one; the statements on [create_anchor] are kept
    to what holds there as well, or to ASCII texts. *)
Definition lower_char (c : ascii) : ascii :=
  let n := nat_of_ascii c in
  if (((65 <=? n) && (n <=? 90)) || ((192 <=? n) && (n <=? 214))
      || ((216 <=? n) && (n <=? 222)))%nat
  then ascii_of_nat (n + 32) else c.

Fixpoint str_map (f : ascii -> ascii) (s : string) : string :=
  match s with
  | EmptyString => EmptyString
  | String c s' => String (f c) (str_map f s')
  end.

Fixpoint str_filter (p : ascii -> bool) (s : string) : string :=
  match s with
  | EmptyString => EmptyString
  | String c s' => if p c then String c (str_filter p s') else str_filter p s'
  end.

Definition lower (s : string) : string := str_map lower_char s.

Fixpoint lstrip (s : string) : string :=
  match s with
  | EmptyString => EmptyString
  | String c s' => if isspace c then lstrip s' else s
  end.

Fixpoint rstrip (s : string) : string :=
  match s with
  | EmptyString => EmptyString
  | String c s' =>
      match rstrip s' with
      | EmptyString => if isspace c then EmptyString else String c EmptyString
      | r => String c r
      end
  end.

(** [s.strip()] *)
Definition strip (s : string) : string := rstrip (lstrip s).

(** [s[n:]] *)
Fixpoint drop (n : nat) (s : string) : string :=
  match n, s with
  | O, _ => s
  | S _, EmptyString => EmptyString
  | S k, String _ s' => drop k s'
  end.

(** [s * n] *)
Fixpoint str_mul (s : string) (n : nat) : string :=
  match n with
  | O => EmptyString
  | S k => s ++ str_mul s k
  end.

(** [s.replace(old, new)] for a non-empty [old] (both call sites pass a
    literal): occurrences are taken from left to right and do not overlap;
    [skip] counts the characters of a matched occurrence still to pass. *)
Fixpoint replace_from (old new : string) (skip : nat) (s : string) : string :=
  match s with
  | EmptyString => EmptyString
  | String c s' =>
      match skip with
      | S k => replace_from old new k s'
      | O =>
          if prefix old s
          then new ++ replace_from old new (String.length old - 1) s'
          else String c (replace_from old new 0 s')
      end
  end.

Definition replace (old new s : string) : string := replace_from old new 0 s.

(** [sub in s] *)
Fixpoint contains (sub s : string) : bool :=
  prefix sub s ||
  match s with
  | EmptyString => false
  | String _ s' => contains sub s'
  end.

(** [sep.join(ls)] *)
Definition join (sep : string) (ls : list string) : string := String.concat sep ls.

(** [os.path.basename]: what follows the last slash. *)
Fixpoint basename (p : string) : string :=
  match p with
  | EmptyString => EmptyString
  | String c p' =>
      if contains "/" p' then basename p'
      else if Ascii.eqb c "/" then p' else p
  end.

(** [sorted] on a list of [str]: ascending code point order. *)
Fixpoint insert_sorted (x : string) (l : list string) : list string :=
  match l with
  | [] => [x]
  | y :: l' => if String.leb x y then x :: l else y :: insert_sorted x l'
  end.

Definition sorted (l : list string) : list string :=
  fold_right insert_sorted [] l.

Definition nl : string := String "010" EmptyString.
Definition dquote : string := String "034" EmptyString.

End PyStr.
Import PyStr.

(** ** Heading extraction *)

(** The length of the match of [re.search("^#+", line)]; 0 when there is
    no match. *)
Fixpoint leading_hashes (line : string) : nat :=
  match line with
  | String "#" s' => S (leading_hashes s')
  | _ => 0
  end.

(** The loop state of [extract_headings]. *)
Record headings := mkHeadings {
  main_heading : option string;
  subheadings : list (nat * string)
}.

(** One iteration of [for line in file]. *)
Definition scan_line (st : headings) (raw : string) : headings :=
  let line := strip raw in
  let indent := leading_hashes line in
  if (indent =? 0)%nat then st
  else if (indent =? 1)%nat then
    mkHeadings (Some (drop (indent + 1) line)) (subheadings st)
  else if (1 <? indent)%nat then
    let offset := indent + 1 in
    mkHeadings (main_heading st) (subheadings st ++ [(indent, drop offset line)])%list
  else st.

Definition scan_lines (lines : list string) : headings :=
  fold_left scan_line lines (mkHeadings None []).

Definition default_heading (file_path : string) : string :=
  basename (replace ".md" "" file_path).

Definition extract_headings (lines : list string) (file_path : string)
  : string * list (nat * string) :=
  let st := scan_lines lines in
  (* [if not main_heading]: [None] or the empty text *)
  let title :=
    match main_heading st with
    | Some s => if String.eqb s "" then default_heading file_path else s
    | None => default_heading file_path
    end in
  (title, subheadings st).

(** ** Anchors *)

(** [re.sub(r'[^\w\s-]', '', text)] *)
Definition keeps (c : ascii) : bool :=
  isword c || isspace c || Ascii.eqb c "-".

Definition create_anchor (text : string) : string :=
  replace " " "-" (lower (strip (str_filter keeps text))).

(** ** The per-document block *)

(** [SummaryInfo]; [default_group_name] is the same literal in every
    instance. *)
Record SummaryInfo := mkSummary {
  summary_name : string;
  group_name : string;
  subheads : list string
}.

Definition default_group_name : string := "Ungrouped".

(** [range(hi, lo, -1)] *)
Fixpoint range_down (hi lo : nat) : list nat :=
  match hi with
  | O => []
  | S h => if (lo <? hi)%nat then hi :: range_down h lo else []
  end.

(** The variables of the loop over the sub-headings, with the lines
    appended to [summary.subheads] so far.  [indent_level] is the loop
    variable, read again after the loop. *)
Record emitter := mkEmitter {
  prior_indent : nat;
  spaces : string;
  indent_level : nat;
  lines : list string
}.

Definition open_line (count : nat) : string := str_mul "  " count ++ "<ul>".
Definition close_line (count : nat) : string := str_mul "  " count ++ "</ul>".

Definition item_line (base_href sp subheading_anchor : string) : string :=
  let anchor := create_anchor (strip subheading_anchor) in
  let link := base_href ++ "#" ++ anchor in
  sp ++ "<li><a href=" ++ dquote ++ link ++ dquote ++ ">"
     ++ strip subheading_anchor ++ "</a></li>".

(** One iteration of [for indent_level, subheading_anchor in subheadings]. *)
Definition emit_subheading (base_href : string) (st : emitter)
  (h : nat * string) : emitter :=
  let level := fst h in
  let st1 :=
    if (prior_indent st <? level)%nat then
      mkEmitter level (str_mul "  " (level + 1)) level
        (lines st ++ [open_line level])%list
    else if (level <? prior_indent st)%nat then
      mkEmitter level (str_mul "  " level) level
        (lines st ++ map close_line (range_down (prior_indent st) level))%list
    else mkEmitter (prior_indent st) (spaces st) level (lines st) in
  mkEmitter (prior_indent st1) (spaces st1) level
    (lines st1 ++ [item_line base_href (spaces st1) (snd h)])%list.

(** The closing loop [for count in range(indent_level, 1, -1)]. *)
Definition final_closes (level : nat) : list string :=
  map (fun count => close_line (count - 1)) (range_down level 1).

Definition summary_line (base_href main : string) : string :=
  "<details><summary><a href=" ++ dquote ++ base_href ++ dquote ++ ">"
    ++ main ++ "</a></summary>".

(** The lines of the list of one document, from the opening [<ul>] to the
    last closing marker. *)
Definition list_lines (base_href : string) (subs : list (nat * string))
  : list string :=
  let st := fold_left (emit_subheading base_href) subs
              (mkEmitter 2 (str_mul "  " 2) 0 ["  <ul>"]) in
  (lines st ++ final_closes (indent_level st))%list.

(** The body of the loop over the files, after [extract_headings]. *)
Definition build_summary (base_url relative_path main : string)
  (subs : list (nat * string)) : SummaryInfo :=
  let relative_url := replace ".md" "" relative_path in
  let base_href := base_url ++ relative_url in
  mkSummary main default_group_name
    (match subs with
     | [] => [summary_line base_href main; "</details>"; nl]
     | _ => summary_line base_href main
            :: (list_lines base_href subs ++ ["</details>"; nl])%list
     end).

(** ** Reading the markers back from the emitted lines *)

Definition is_open (line : string) : bool := String.eqb (lstrip line) "<ul>".
Definition is_close (line : string) : bool := String.eqb (lstrip line) "</ul>".

Definition count_open (ls : list string) : nat := List.length (filter is_open ls).
Definition count_close (ls : list string) : nat := List.length (filter is_close ls).

(** Every closing marker has an opening marker before it that no earlier
    closing marker took; [depth] is the number of lists open so far. *)
Fixpoint closes_matched (depth : nat) (ls : list string) : bool :=
  match ls with
  | [] => true
  | l :: ls' =>
      if is_open l then closes_matched (S depth) ls'
      else if is_close l then
        match depth with
        | O => false
        | S d => closes_matched d ls'
        end
      else closes_matched depth ls'
  end.

(** The markers appended before the list item of an entry of depth
    [level] when the previous depth is [prior]. *)
Definition transition (prior level : nat) : list string :=
  if (prior <? level)%nat then [open_line level]
  else if (level <? prior)%nat then map close_line (range_down prior level)
  else [].

(** ** Groups *)

(** [SummaryMap.defs]: the object of the JSON file, in the order of the
    file, each group name with its list of titles.  A file whose values are
    not lists of strings is outside this model. *)
Definition SummaryMap := list (string * list string).

Fixpoint get_group_for_summary (defs : SummaryMap) (name : string)
  : option string :=
  match defs with
  | [] => None
  | (key, val) :: rest =>
      if existsb (fun secname => String.eqb secname name) val then Some key
      else get_group_for_summary rest name
  end.

(** [self.defs.get(group_name, None)] *)
Fixpoint get_summarys_for_group (defs : SummaryMap) (group : string)
  : option (list string) :=
  match defs with
  | [] => None
  | (key, val) :: rest =>
      if String.eqb key group then Some val
      else get_summarys_for_group rest group
  end.

(** [first(iterable)] *)
Definition first {A : Type} (l : list A) : option A :=
  match l with
  | [] => None
  | item :: _ => Some item
  end.

(** [for s in summary_list: ... s.group_name = group_name] *)
Definition assign_group (defs : SummaryMap) (s : SummaryInfo) : SummaryInfo :=
  match get_group_for_summary defs (summary_name s) with
  | Some g => mkSummary (summary_name s) g (subheads s)
  | None => s
  end.

Definition group_header (group : string) : string := "## " ++ group ++ nl.

(** [sidebar.write('\n'.join(sec.subheads))] *)
Definition block (s : SummaryInfo) : string := join nl (subheads s).

(** The chunks written for one member of a group. *)
Definition write_member (summary_list : list SummaryInfo) (item : string)
  : list string :=
  match first (filter (fun x => String.eqb (summary_name x) item) summary_list) with
  | Some sec => [block sec]
  | None => []
  end.

(** One iteration of [for group in summary_map.defs]. *)
Definition write_group (defs : SummaryMap) (summary_list : list SummaryInfo)
  (group : string) : list string :=
  match get_summarys_for_group defs group with
  | None => []
  | Some summarys =>
      group_header group :: flat_map (write_member summary_list) summarys
  end.

(** One iteration of the last loop, on the flag [ungrouped_header_done] and
    the chunks written so far. *)
Definition write_ungrouped (acc : bool * list string) (s : SummaryInfo)
  : bool * list string :=
  let '(ungrouped_header_done, out) := acc in
  if String.eqb (group_name s) default_group_name then
    if negb ungrouped_header_done
    then (true, out ++ [group_header (group_name s); block s])%list
    else (ungrouped_header_done, out ++ [block s])%list
  else acc.

(** What [generate_sidebar] writes once [summary_list] is built. *)
Definition write_sidebar (summary_map : option SummaryMap)
  (summary_list : list SummaryInfo) : list string :=
  match summary_map with
  | Some defs =>
      let summary_list := map (assign_group defs) summary_list in
      let groups := flat_map (write_group defs summary_list) (map fst defs) in
      snd (fold_left write_ungrouped summary_list (false, groups))
  | None => map block summary_list
  end.

(** A chunk that is the header line of a group. *)
Definition is_header (chunk : string) : bool := prefix "## " chunk.

(** The test of the last loop: the summary still has the default group. *)
Definition ungrouped (s : SummaryInfo) : bool :=
  String.eqb (group_name s) default_group_name.

(** The title of the summary is in no member list. *)
Definition unmatched (defs : SummaryMap) (s : SummaryInfo) : bool :=
  match get_group_for_summary defs (summary_name s) with
  | None => true
  | Some _ => false
  end.

(** The section of the default group: its header, once, when there is a
    summary to list. *)
Definition default_section (l : list SummaryInfo) : list string :=
  match l with
  | [] => []
  | _ => group_header default_group_name :: map block l
  end.

(** ** The run *)

(** What [SummaryMap(fname)] does on a file that exists: it gives the
    mapping, or [json.load] raises [json.JSONDecodeError], or the reading
    raises another exception, as [UnicodeDecodeError] on a file that is not
    UTF-8. *)
Inductive json_result :=
| JSONDecodeError (de : string)
| Raised (exception : string)
| Loaded (defs : SummaryMap).

(** The end of a run: an exception that nothing catches, or the messages
    printed and the chunks written. *)
Inductive run_result :=
| Aborted (exception : string)
| Written (printed : list string) (chunks : list string).

Section Run.

(** The collaborators: the path of the wiki, [os.path.relpath] to the
    input directory, the lines of a file, [os.path.isfile] and
    [json.load] on the file of a name. *)
Variable base_url : string.
Variable relpath : string -> string.
Variable read_lines : string -> list string.
Variable isfile : string -> bool.
Variable json_load : string -> json_result.

(** The part of [process_args] that sets [summary_map], with what it
    prints; only [json.JSONDecodeError] is caught, any other exception
    leaves the function. *)
Definition load_summary_map (summaryDef : option string)
  : string + (option SummaryMap * list string) :=
  match summaryDef with
  | None => inr (None, [])
  | Some arg =>
      let fname := strip arg in
      if negb (isfile fname) then
        inr (None, ["error: Could not find json file  " ++ fname
                      ++ " . Files will not be grouped."])
      else
        match json_load fname with
        | Loaded defs => inr (Some defs, [])
        | JSONDecodeError de => inr (None, ["Invalid JSON syntax:  " ++ de])
        | Raised exception => inl exception
        end
  end.

Definition skipped (md_file : string) : bool :=
  contains "sidebar.md" (lower md_file).

Definition summarize (md_file : string) : SummaryInfo :=
  let '(main, subs) := extract_headings (read_lines md_file) md_file in
  build_summary base_url (relpath md_file) main subs.

(** One iteration of [for md_file in sorted(markdown_files)]. *)
Definition visit (summary_list : list SummaryInfo) (md_file : string)
  : list SummaryInfo :=
  if skipped md_file then summary_list
  else (summary_list ++ [summarize md_file])%list.

Definition collect (markdown_files : list string) : list SummaryInfo :=
  fold_left visit (sorted markdown_files) [].

Definition generate_sidebar (summary_map : option SummaryMap)
  (markdown_files : list string) : list string :=
  write_sidebar summary_map (collect markdown_files).

(** [process_args(); generate_sidebar()]: what is printed before the
    sidebar is written, and the chunks written, when no exception ends the
    run before. *)
Definition main (summaryDef : option string) (markdown_files : list string)
  : run_result :=
  match load_summary_map summaryDef with
  | inl exception => Aborted exception
  | inr (summary_map, printed) =>
      Written printed (generate_sidebar summary_map markdown_files)
  end.

End Run.

(** ** A small wiki for the examples *)

Module Demo.

Definition base_url : string := "https://github.com/u/r/wiki/".

(** The input directory is [wiki]. *)
Definition relpath (md_file : string) : string := drop 5 md_file.

Definition read_lines (md_file : string) : list string :=
  if String.eqb md_file "wiki/a.md" then ["# A"; ""; "## Sub1"; "text"; "## Sub2"]
  else if String.eqb md_file "wiki/b.md" then ["# B"; "text"]
  else ["## Only"].

Definition files : list string :=
  ["wiki/b.md"; "wiki/_Sidebar.md"; "wiki/c.md"; "wiki/a.md"].

Definition groups : SummaryMap := [("Guides", ["B"; "Missing"]); ("Empty", ["Nope"])].

Definition no_file (fname : string) : bool := false.
Definition any_file (fname : string) : bool := true.
Definition no_json (fname : string) : json_result := JSONDecodeError "Expecting value".
Definition not_utf8 (fname : string) : json_result := Raised "UnicodeDecodeError".

End Demo.

(** ** The statements of the specification that are compared with the code *)

Module Spec.

(** The last dot of a name and what follows it are its extension. *)
Fixpoint chop_extension (s : string) : string :=
  match s with
  | EmptyString => EmptyString
  | String c s' =>
      if contains "." s' then String c (chop_extension s')
      else if Ascii.eqb c "." then EmptyString else s
  end.

(** "its file base name (extension stripped)"; a leading dot starts no
    extension. *)
Definition base_name_stripped (file_path : string) : string :=
  match basename file_path with
  | EmptyString => EmptyString
  | String c s' => String c (chop_extension s')
  end.

(** "the sidebar output file itself, matched case-insensitively by file
    name" *)
Definition is_output_file (output_file md_file : string) : bool :=
  String.eqb (lower (basename md_file)) (lower (basename output_file)).


End Spec.

Fixpoint str_forallb (p : ascii -> bool) (s : string) : bool :=
  match s with
  | EmptyString => true
  | String c s' => p c && str_forallb p s'
  end.

Definition str_head (s : string) : option ascii :=
  match s with
  | EmptyString => None
  | String c _ => Some c
  end.

Fixpoint str_last (s : string) : option ascii :=
  match s with
  | EmptyString => None
  | String c s' =>
      match str_last s' with
      | None => Some c
      | found => found
      end
  end.

Definition nonspace (c : ascii) : bool := negb (isspace c).

(** The characters that [create_anchor] neither removes nor trims. *)
Definition visible (c : ascii) : bool := isword c || Ascii.eqb c "-".

(** What [.lower().replace(' ', '-')] makes of one character. *)
Definition hyphenate (c : ascii) : ascii :=
  let l := lower_char c in if Ascii.eqb l " " then "-"%char else l.

(** The characters found in an anchor: lower-cased word characters,
    hyphens, and the whitespace that is not the space character. *)
Definition anchor_ok (c : ascii) : bool :=
  (isword c || Ascii.eqb c "-" || (isspace c && negb (Ascii.eqb c " ")))
  && Ascii.eqb (lower_char c) c.

(** The ASCII characters, the upper-case letters among them, and the
    printable ones that are no letter, no digit and not the space. *)
Definition is_ascii (c : ascii) : bool := (nat_of_ascii c <? 128)%nat.




(** The markers that a sequence of depths makes the emitter append after
    the opening [<ul>], starting from the depth [prior]. *)
Fixpoint opens_of (prior : nat) (depths : list nat) : nat :=
  match depths with
  | [] => 0
  | d :: ds => (if (prior <? d)%nat then 1 else 0) + opens_of d ds
  end.

Fixpoint closes_of (prior : nat) (depths : list nat) : nat :=
  match depths with
  | [] => prior - 1
  | d :: ds => (prior - d) + closes_of d ds
  end.

(** The levels passed over by the upward transitions. *)
Fixpoint jump_excess (prior : nat) (depths : list nat) : nat :=
  match depths with
  | [] => 0
  | d :: ds => (d - prior - 1) + jump_excess d ds
  end.

(** ** The rest of the program *)

(** [s.endswith(suffix)] *)
Fixpoint endswith (s suffix : string) : bool :=
  String.eqb s suffix
  || match s with
     | EmptyString => false
     | String _ s' => endswith s' suffix
     end.

(** [s.strip(ch)] for a set of one character, as in [strip("/")]. *)
Fixpoint lstrip_char (ch : ascii) (s : string) : string :=
  match s with
  | EmptyString => EmptyString
  | String c s' => if Ascii.eqb c ch then lstrip_char ch s' else s
  end.

Fixpoint rstrip_char (ch : ascii) (s : string) : string :=
  match s with
  | EmptyString => EmptyString
  | String c s' =>
      match rstrip_char ch s' with
      | EmptyString => if Ascii.eqb c ch then EmptyString else String c EmptyString
      | r => String c r
      end
  end.

Definition strip_char (ch : ascii) (s : string) : string :=
  rstrip_char ch (lstrip_char ch s).

(** [urljoin] on its arguments; without arguments [args[-1]] raises
    [IndexError]. *)
Definition urljoin (args : list string) : option string :=
  match args with
  | [] => None
  | _ =>
      let trailing_slash := if endswith (List.last args "") "/" then "/" else "" in
      Some (join "/" (map (strip_char "/") args) ++ trailing_slash)
  end.

(** [base_url] as [process_args] sets it. *)
Definition wiki_url (reposName : string) : option string :=
  urljoin ["https://github.com/"; reposName; "/wiki/"].

(** A directory as [os.walk] reads it: its name, whether that name is a
    symbolic link to the directory, the names of its other entries and its
    sub-directories, in the order of the listing. *)
#[local] Set Warnings "-register-all".
Inductive tree :=
| Dir (name : string) (link : bool) (files : list string) (dirs : list tree).
#[local] Set Warnings "register-all".

Definition dir_name (t : tree) : string :=
  match t with
  | Dir name _ _ _ => name
  end.

Definition dir_link (t : tree) : bool :=
  match t with
  | Dir _ link _ _ => link
  end.

(** [os.path.join(a, b)] *)
Definition path_join (a b : string) : string :=
  if prefix "/" b then b
  else if String.eqb a "" || endswith a "/" then a ++ b
  else a ++ "/" ++ b.

(** [os.walk(top)] on the directory [t] found at the path [top]: the
    triples [(root, dirs, files)], top-down.  A symbolic link to a directory
    is listed among [dirs] and not entered. *)
Fixpoint walk (top : string) (t : tree) : list (string * list string * list string) :=
  match t with
  | Dir _ _ files dirs =>
      (top, map dir_name dirs, files)
      :: flat_map
           (fun sub =>
              if dir_link sub then []
              else walk (path_join top (dir_name sub)) sub)
           dirs
  end.

(** No name of the listing starts with a slash. *)
Fixpoint names_ok (t : tree) : bool :=
  match t with
  | Dir _ _ files dirs =>
      forallb (fun file => negb (prefix "/" file)) files
      && forallb (fun sub => negb (prefix "/" (dir_name sub)) && names_ok sub) dirs
  end.

(** A listing for the examples: [old] is a symbolic link. *)
Definition demo_listing : tree :=
  Dir "wiki" false ["Home.md"; "logo.png"]
    [Dir "guide" false ["Setup.md"; "notes.MD"] [];
     Dir "old" true ["Gone.md"] []].

Definition get_markdown_files (directory : string) (t : tree) : list string :=
  flat_map
    (fun entry =>
       let '(root, _, files) := entry in
       map (path_join root) (filter (fun file => endswith file ".md") files))
    (walk directory t).

(** The lines of a file that give a sub-heading, and the entry of one. *)
Definition is_sub_line (raw : string) : bool :=
  (2 <=? leading_hashes (strip raw))%nat.

Definition sub_entry (raw : string) : nat * string :=
  (leading_hashes (strip raw), drop (leading_hashes (strip raw) + 1) (strip raw)).

Definition is_heading_line (raw : string) : bool :=
  negb (leading_hashes (strip raw) =? 0)%nat.

(** A line of a block that is a list item. *)
Definition is_item (line : string) : bool := prefix "<li>" (lstrip line).

(** The number of lists open after the lines [ls], starting from [depth];
    [None] when a closing marker finds no list open. *)
Fixpoint depth_after (depth : nat) (ls : list string) : option nat :=
  match ls with
  | [] => Some depth
  | l :: ls' =>
      if is_open l then depth_after (S depth) ls'
      else if is_close l then
        match depth with
        | O => None
        | S d => depth_after d ls'
        end
      else depth_after depth ls'
  end.

(** All the titles of a definition, group after group. *)
Definition all_members (defs : SummaryMap) : list string :=
  List.concat (map snd defs).

(** The summaries of the titles [items], in that order. *)
Definition summaries_of (summary_list : list SummaryInfo) (items : list string)
  : list SummaryInfo :=
  flat_map
    (fun item => filter (fun s => String.eqb (summary_name s) item) summary_list)
    items.

(** * Properties *)

(** ** Strings *)

Lemma append_assoc (a b c : string) : (a ++ b) ++ c = a ++ (b ++ c).
Proof. induction a as [|x a IH]; simpl; [reflexivity | now rewrite IH]. Qed.

Lemma append_nil_r (a : string) : a ++ "" = a.
Proof. induction a as [|x a IH]; simpl; [reflexivity | now rewrite IH]. Qed.

Lemma length_append (a b : string) :
  String.length (a ++ b) = String.length a + String.length b.
Proof. induction a as [|x a IH]; simpl; [reflexivity | now rewrite IH]. Qed.

Lemma lstrip_indent (n : nat) (s : string) :
  lstrip (str_mul "  " n ++ s) = lstrip s.
Proof.
  induction n as [|n IH]; [reflexivity|].
  change (str_mul "  " (S n)) with ("  " ++ str_mul "  " n).
  rewrite append_assoc. exact IH.
Qed.

(** Whatever stands before it, a text that starts with a character that is
    no space is still there after [lstrip]. *)
Lemma lstrip_keeps_tail (sp : string) (c : ascii) (t : string) :
  isspace c = false ->
  exists pre, lstrip (sp ++ String c t) = pre ++ String c t.
Proof.
  intros Hc. induction sp as [|x sp IH]; simpl.
  - rewrite Hc. now exists "".
  - destruct (isspace x); [exact IH|].
    now exists (String x sp).
Qed.

Lemma prefix_empty s : prefix "" s = true.
Proof. now destruct s. Qed.

Lemma str_map_app f a b : str_map f (a ++ b) = str_map f a ++ str_map f b.
Proof. induction a as [|c a IH]; simpl; [reflexivity | now rewrite IH]. Qed.

(** ** File names *)

Lemma lower_app a b : lower (a ++ b) = lower a ++ lower b.
Proof. apply str_map_app. Qed.

Lemma contains_app_r sub a b :
  contains sub b = true -> contains sub (a ++ b) = true.
Proof.
  intros H. induction a as [|c a IH]; [exact H|].
  cbn [append contains]. rewrite IH. apply orb_true_r.
Qed.

(** ** Markers and list items *)

Lemma is_open_open_line n : is_open (open_line n) = true.
Proof. unfold is_open, open_line. now rewrite lstrip_indent. Qed.

Lemma is_close_open_line n : is_close (open_line n) = false.
Proof. unfold is_close, open_line. now rewrite lstrip_indent. Qed.

Lemma is_open_close_line n : is_open (close_line n) = false.
Proof. unfold is_open, close_line. now rewrite lstrip_indent. Qed.

Lemma is_close_close_line n : is_close (close_line n) = true.
Proof. unfold is_close, close_line. now rewrite lstrip_indent. Qed.

Lemma item_line_long b sp t :
  6 <= String.length (lstrip (item_line b sp t)).
Proof.
  unfold item_line.
  destruct (lstrip_keeps_tail sp "<"
              ("li><a href=" ++ dquote ++ (b ++ "#" ++ create_anchor (strip t))
                 ++ dquote ++ ">" ++ strip t ++ "</a></li>") eq_refl)
    as [pre Hpre].
  change (sp ++ "<li><a href=" ++ ?r) with (sp ++ String "<" ("li><a href=" ++ r)).
  rewrite Hpre, length_append. simpl. lia.
Qed.

Lemma is_open_item_line b sp t : is_open (item_line b sp t) = false.
Proof.
  unfold is_open. apply String.eqb_neq. intros E.
  pose proof (item_line_long b sp t) as H. rewrite E in H. simpl in H. lia.
Qed.

Lemma is_close_item_line b sp t : is_close (item_line b sp t) = false.
Proof.
  unfold is_close. apply String.eqb_neq. intros E.
  pose proof (item_line_long b sp t) as H. rewrite E in H. simpl in H. lia.
Qed.

Lemma count_open_app l1 l2 :
  count_open (l1 ++ l2) = count_open l1 + count_open l2.
Proof. unfold count_open. now rewrite filter_app, length_app. Qed.

Lemma count_close_app l1 l2 :
  count_close (l1 ++ l2) = count_close l1 + count_close l2.
Proof. unfold count_close. now rewrite filter_app, length_app. Qed.

Lemma range_down_length hi lo : List.length (range_down hi lo) = hi - lo.
Proof.
  induction hi as [|h IH]; [reflexivity|].
  simpl range_down. destruct (Nat.ltb_spec lo (S h)) as [H|H].
  - simpl List.length. rewrite IH. lia.
  - simpl List.length. lia.
Qed.

Lemma count_closes_only (f : nat -> nat) (l : list nat) :
  count_open (map (fun count => close_line (f count)) l) = 0
  /\ count_close (map (fun count => close_line (f count)) l) = List.length l.
Proof.
  unfold count_open, count_close.
  induction l as [|x l [IHo IHc]]; [split; reflexivity|].
  simpl. rewrite is_open_close_line, is_close_close_line. simpl.
  split; [exact IHo | now rewrite IHc].
Qed.

Lemma transition_opens prior level :
  count_open (transition prior level) = if (prior <? level)%nat then 1 else 0.
Proof.
  unfold transition. destruct (prior <? level)%nat.
  - unfold count_open. simpl. now rewrite is_open_open_line.
  - destruct (level <? prior)%nat; [|reflexivity].
    apply (count_closes_only (fun c => c)).
Qed.

Lemma transition_closes prior level :
  count_close (transition prior level) = prior - level.
Proof.
  unfold transition. destruct (Nat.ltb_spec prior level) as [H|H].
  - unfold count_close. cbn [filter]. rewrite is_close_open_line.
    cbn [List.length]. lia.
  - destruct (Nat.ltb_spec level prior) as [H'|H'].
    + destruct (count_closes_only (fun c => c) (range_down prior level)) as [_ E].
      etransitivity; [exact E|]. apply range_down_length.
    + cbn [count_close filter List.length]. lia.
Qed.

(** What one iteration of the loop appends, and the variables it leaves. *)
Lemma emit_subheading_lines b st h :
  lines (emit_subheading b st h)
  = (lines st ++ transition (prior_indent st) (fst h)
       ++ [item_line b (spaces (emit_subheading b st h)) (snd h)])%list
  /\ prior_indent (emit_subheading b st h) = fst h
  /\ indent_level (emit_subheading b st h) = fst h.
Proof.
  unfold emit_subheading, transition.
  destruct (Nat.ltb_spec (prior_indent st) (fst h)) as [H|H]; simpl.
  - now rewrite <- app_assoc.
  - destruct (Nat.ltb_spec (fst h) (prior_indent st)) as [H'|H']; simpl.
    + now rewrite <- app_assoc.
    + repeat split; lia.
Qed.

Lemma emit_subheading_counts b st h :
  count_open (lines (emit_subheading b st h))
  = count_open (lines st) + (if (prior_indent st <? fst h)%nat then 1 else 0)
  /\ count_close (lines (emit_subheading b st h))
     = count_close (lines st) + (prior_indent st - fst h).
Proof.
  destruct (emit_subheading_lines b st h) as [E _]. rewrite E.
  rewrite !count_open_app, !count_close_app, transition_opens, transition_closes.
  unfold count_open, count_close. cbn [filter].
  rewrite is_open_item_line, is_close_item_line. cbn [List.length]. lia.
Qed.

Lemma fold_emit_counts b subs : forall st,
  let st' := fold_left (emit_subheading b) subs st in
  count_open (lines st')
  = count_open (lines st) + opens_of (prior_indent st) (map fst subs)
  /\ count_close (lines st') + (prior_indent st' - 1)
     = count_close (lines st) + closes_of (prior_indent st) (map fst subs)
  /\ (subs <> [] -> indent_level st' = prior_indent st').
Proof.
  induction subs as [|h subs IH]; intros st; simpl.
  - repeat split; try lia. congruence.
  - destruct (IH (emit_subheading b st h)) as (Ho & Hc & Hl).
    destruct (emit_subheading_counts b st h) as [Eo Ec].
    destruct (emit_subheading_lines b st h) as (_ & Ep & El).
    rewrite Ep in Ho, Hc. repeat split.
    + rewrite Ho, Eo. lia.
    + rewrite Hc, Ec. lia.
    + intros _. destruct subs as [|h' subs];
        [cbn [fold_left]; now rewrite Ep, El|].
      apply Hl. discriminate.
Qed.

(** The markers of the list of a document, counted from its depths. *)
Lemma list_lines_counts b subs :
  subs <> [] ->
  count_open (list_lines b subs) = 1 + opens_of 2 (map fst subs)
  /\ count_close (list_lines b subs) = closes_of 2 (map fst subs).
Proof.
  intros Hne. unfold list_lines.
  destruct (fold_emit_counts b subs (mkEmitter 2 (str_mul "  " 2) 0 ["  <ul>"]))
    as (Ho & Hc & Hl).
  cbv zeta in Ho, Hc, Hl. specialize (Hl Hne).
  set (st' := fold_left (emit_subheading b) subs _) in *.
  destruct (count_closes_only (fun c => c - 1) (range_down (indent_level st') 1))
    as [Fo Fc].
  unfold final_closes.
  rewrite count_open_app, count_close_app, Fo, Fc, range_down_length, Hl.
  simpl prior_indent in *. simpl lines in *.
  change (count_open ["  <ul>"]) with 1 in Ho.
  change (count_close ["  <ul>"]) with 0 in Hc.
  lia.
Qed.

Lemma closes_of_excess prior depths :
  1 <= prior -> Forall (fun d => 1 <= d) depths ->
  closes_of prior depths
  = opens_of prior depths + jump_excess prior depths + (prior - 1).
Proof.
  intros Hp Hd. revert prior Hp.
  induction Hd as [|d ds Hd1 _ IH]; intros prior Hp; simpl; [lia|].
  rewrite (IH d Hd1). destruct (Nat.ltb_spec prior d); lia.
Qed.

(** The closing markers of a list exceed its opening markers by the levels
    that its upward transitions pass over: a list is balanced exactly when
    every upward transition is by one level. *)
Lemma list_lines_excess b subs :
  subs <> [] -> Forall (fun h => 2 <= fst h) subs ->
  count_close (list_lines b subs)
  = count_open (list_lines b subs) + jump_excess 2 (map fst subs).
Proof.
  intros Hne Hd. destruct (list_lines_counts b subs Hne) as [Ho Hc].
  rewrite Ho, Hc, closes_of_excess; [lia | lia |].
  rewrite Forall_map. eapply Forall_impl; [|exact Hd]. simpl. intros; lia.
Qed.

(** ** Nesting of the emitted list *)

(** C1 (the code breaks it).  The block of the document with the lines
    [# Page], [## A], [#### B], [## C] has two opening list markers and three
    closing ones, and its last closing marker has no opening marker left to
    match: the jump from depth 2 to depth 4 opens one list, the return to
    depth 2 closes two. *)
Theorem unbalanced_after_jump :
  let doc := extract_headings ["# Page"; "## A"; "#### B"; "## C"] "Page.md" in
  let blk := subheads (build_summary "https://github.com/u/r/wiki/" "Page.md"
                         (fst doc) (snd doc)) in
  snd doc = [(2, "A"); (4, "B"); (2, "C")]
  /\ count_open blk = 2 /\ count_close blk = 3
  /\ closes_matched 0 blk = false.
Proof. vm_compute. repeat split. Qed.

(** C2.  For the depths 2, 4, 2 the list has one opening marker between
    the first and the second item and two closing markers between the second
    and the third; no item is read as a marker.  In general an iteration
    appends the markers of [transition] and then its item: one opening
    marker and no closing one when the depth rises, whatever the jump, and
    [prior - level] closing markers and no opening one otherwise. *)
Theorem depth_jump_markers :
  (forall b t1 t2 t3,
      list_lines b [(2, t1); (4, t2); (2, t3)]
      = ["  <ul>"; item_line b (str_mul "  " 2) t1;
         open_line 4; item_line b (str_mul "  " 5) t2;
         close_line 4; close_line 3; item_line b (str_mul "  " 2) t3;
         close_line 1])
  /\ (forall b sp t,
         is_open (item_line b sp t) = false /\ is_close (item_line b sp t) = false)
  /\ (forall b st h,
         lines (emit_subheading b st h)
         = (lines st ++ transition (prior_indent st) (fst h)
              ++ [item_line b (spaces (emit_subheading b st h)) (snd h)])%list
         /\ prior_indent (emit_subheading b st h) = fst h)
  /\ (forall prior level,
         count_open (transition prior level)
         = (if (prior <? level)%nat then 1 else 0)
         /\ count_close (transition prior level) = prior - level).
Proof.
  split; [reflexivity|]. split; [|split].
  - intros. split; [apply is_open_item_line | apply is_close_item_line].
  - intros. destruct (emit_subheading_lines b st h) as (E & P & _). now split.
  - intros. split; [apply transition_opens | apply transition_closes].
Qed.

(** ** Heading lines *)

Lemma scan_line_cases st raw :
  scan_line st raw
  = match leading_hashes (strip raw) with
    | 0 => st
    | 1 => mkHeadings (Some (drop 2 (strip raw))) (subheadings st)
    | S (S k) =>
        mkHeadings (main_heading st)
          (subheadings st ++ [(S (S k), drop (S (S (S k))) (strip raw))])%list
    end.
Proof.
  unfold scan_line. destruct (leading_hashes (strip raw)) as [|[|k]]; try reflexivity.
  cbn [Nat.eqb Nat.ltb Nat.leb]. now rewrite Nat.add_1_r.
Qed.

Lemma leading_hashes_markers n rest :
  leading_hashes (str_mul "#" n ++ rest) = n + leading_hashes rest.
Proof. induction n as [|n IH]; [reflexivity|]. simpl. now rewrite IH. Qed.

Lemma drop_markers n k rest : drop (n + k) (str_mul "#" n ++ rest) = drop k rest.
Proof. induction n as [|n IH]; [reflexivity|]. exact IH. Qed.

(** Lines that are no depth-1 heading leave the title as it is. *)
Lemma scan_keeps_main post : forall st,
  Forall (fun x => leading_hashes (strip x) <> 1) post ->
  main_heading (fold_left scan_line post st) = main_heading st.
Proof.
  induction post as [|x post IH]; intros st H; [reflexivity|].
  inversion H as [|? ? Hx Hpost]; subst. simpl. rewrite (IH _ Hpost).
  rewrite scan_line_cases.
  destruct (leading_hashes (strip x)) as [|[|k]]; [reflexivity | congruence | reflexivity].
Qed.

(** C3 (as the code has it).  The title is the text of the last depth-1
    heading line, whatever depth-1 lines stand before it; when that text is
    empty the title is the default one. *)
Theorem last_top_heading_is_title pre l post path :
  leading_hashes (strip l) = 1 ->
  Forall (fun x => leading_hashes (strip x) <> 1) post ->
  fst (extract_headings (pre ++ l :: post) path)
  = if String.eqb (drop 2 (strip l)) "" then default_heading path
    else drop 2 (strip l).
Proof.
  intros Hl Hpost. unfold extract_headings, scan_lines.
  rewrite fold_left_app. cbn [fold_left fst].
  rewrite (scan_keeps_main post _ Hpost), scan_line_cases, Hl.
  cbn [main_heading]. reflexivity.
Qed.

Lemma last_top_heading_is_title_witness :
  fst (extract_headings (["# First"; "## Sub"] ++ "# Second" :: ["text"]) "doc.md")
  = "Second".
Proof.
  apply (last_top_heading_is_title ["# First"; "## Sub"] "# Second" ["text"] "doc.md").
  - reflexivity.
  - repeat constructor. vm_compute. discriminate.
Defined.

(** C3 as stated fails: of two depth-1 headings the first is not the title. *)
Lemma first_top_heading_overwritten :
  fst (extract_headings ["# First"; "# Second"] "doc.md") <> "First".
Proof. vm_compute. discriminate. Qed.

(** C4 (as the code has it).  A line whose stripped form starts with
    markers is a heading whatever follows the markers: one marker sets the
    title, more markers append one entry of that depth, and nothing else
    changes. *)
Theorem markers_make_heading st raw k rest :
  strip raw = str_mul "#" (S k) ++ rest ->
  leading_hashes rest = 0 ->
  exists text,
    scan_line st raw
    = if (k =? 0)%nat then mkHeadings (Some text) (subheadings st)
      else mkHeadings (main_heading st) (subheadings st ++ [(S k, text)])%list.
Proof.
  intros Hs Hr. exists (drop 1 rest).
  rewrite scan_line_cases, Hs, leading_hashes_markers, Hr, Nat.add_0_r.
  destruct k as [|k]; cbn [Nat.eqb].
  - exact (f_equal (fun t => mkHeadings (Some t) (subheadings st))
             (drop_markers 1 1 rest)).
  - rewrite <- (drop_markers (S (S k)) 1 rest), Nat.add_1_r. reflexivity.
Qed.

Lemma markers_make_heading_witness :
  exists text,
    scan_line (mkHeadings (Some "Old") []) " ##NoSpace "
    = mkHeadings (Some "Old") [(2, text)].
Proof.
  exact (markers_make_heading (mkHeadings (Some "Old") []) " ##NoSpace " 1
           "NoSpace" eq_refl eq_refl).
Defined.

(** C4 as stated fails: [#NoSpace] sets the title and [##NoSpace] appends a
    sub-heading. *)
Lemma marker_without_space_not_skipped :
  scan_line (mkHeadings None []) "#NoSpace" <> mkHeadings None []
  /\ scan_line (mkHeadings None []) "##NoSpace" <> mkHeadings None [].
Proof. split; vm_compute; discriminate. Qed.

(** *** The default title *)

Lemma prefix_md_before_suffix c s :
  prefix ".md" (String c s) = false ->
  prefix ".md" (String c s ++ ".md") = false.
Proof.
  intros H. cbn [append prefix] in *.
  destruct (ascii_dec "." c) as [_|_]; [|reflexivity].
  destruct s as [|x s]; [reflexivity|]. cbn [append prefix] in *.
  destruct (ascii_dec "m" x) as [_|_]; [|reflexivity].
  destruct s as [|y s]; [reflexivity|]. cbn [append prefix] in *.
  destruct (ascii_dec "d" y) as [_|_]; [|reflexivity].
  rewrite prefix_empty in H. discriminate.
Qed.

(** Where [.md] is the end of the path and nowhere else in it, removing
    every [.md] removes the extension. *)
Lemma replace_md_suffix s :
  contains ".md" s = false -> replace ".md" "" (s ++ ".md") = s.
Proof.
  unfold replace. induction s as [|c s IH]; intros H; [reflexivity|].
  cbn [contains] in H. apply orb_false_elim in H. destruct H as [Hp Hs].
  pose proof (prefix_md_before_suffix c s Hp) as Hp'.
  cbn [append] in *. cbn [replace_from]. rewrite Hp'. now rewrite (IH Hs).
Qed.

Lemma basename_of_dir dir name :
  contains "/" name = false -> basename (dir ++ "/" ++ name) = name.
Proof.
  intros H. induction dir as [|c dir IH].
  - cbn [append basename]. rewrite H. reflexivity.
  - cbn [append basename]. rewrite contains_app_r; [exact IH|].
    destruct name; reflexivity.
Qed.

Lemma chop_extension_md t : Spec.chop_extension (t ++ ".md") = t.
Proof.
  induction t as [|c t IH]; [reflexivity|].
  cbn [append Spec.chop_extension]. rewrite contains_app_r by reflexivity.
  now rewrite IH.
Qed.

(** For a path [dir/name.md] that has [.md] at its end only, the default
    title is [name], the base name without its extension. *)
Lemma default_title_plain_path lines dir name :
  Forall (fun x => leading_hashes (strip x) <> 1) lines ->
  name <> "" -> contains "/" name = false ->
  contains ".md" (dir ++ "/" ++ name) = false ->
  fst (extract_headings lines (dir ++ "/" ++ name ++ ".md")) = name
  /\ Spec.base_name_stripped (dir ++ "/" ++ name ++ ".md") = name.
Proof.
  intros Hl Hn Hs Hmd. split.
  - unfold extract_headings, scan_lines. rewrite (scan_keeps_main lines _ Hl).
    cbn [main_heading fst]. unfold default_heading.
    replace (dir ++ "/" ++ name ++ ".md") with ((dir ++ "/" ++ name) ++ ".md")
      by (now rewrite append_assoc).
    rewrite (replace_md_suffix _ Hmd). now apply basename_of_dir.
  - unfold Spec.base_name_stripped. rewrite (basename_of_dir dir (name ++ ".md")).
    + destruct name as [|c t]; [congruence|]. cbn [append].
      now rewrite chop_extension_md.
    + clear Hn Hmd. induction name as [|c t IH]; [reflexivity|].
      cbn [append contains] in *. apply orb_false_elim in Hs.
      destruct Hs as [Hp Ht]. rewrite (IH Ht), orb_false_r.
      cbn [prefix] in *. destruct (ascii_dec "/" c); [|reflexivity].
      now rewrite prefix_empty in Hp.
Qed.

(** C6 (the code breaks it).  Without a depth-1 heading the title of
    [dir/notes.md] is [notes], but that of [wiki/my.mdnotes.md] is [mynotes]
    where the base name without its extension is [my.mdnotes]: every [.md]
    of the path is removed, not the extension alone. *)
Theorem default_title_drops_inner_md :
  fst (extract_headings ["intro"; "## Usage"] "dir/notes.md") = "notes"
  /\ Spec.base_name_stripped "dir/notes.md" = "notes"
  /\ fst (extract_headings ["intro"; "## Usage"] "wiki/my.mdnotes.md") = "mynotes"
  /\ Spec.base_name_stripped "wiki/my.mdnotes.md" = "my.mdnotes".
Proof. vm_compute. repeat split. Qed.

(** ** Anchors *)

Lemma str_map_map f g s : str_map f (str_map g s) = str_map (fun c => f (g c)) s.
Proof. induction s as [|c s IH]; simpl; [reflexivity | now rewrite IH]. Qed.

Lemma str_filter_app p a b :
  str_filter p (a ++ b) = str_filter p a ++ str_filter p b.
Proof.
  induction a as [|c a IH]; simpl; [reflexivity|].
  destruct (p c); simpl; now rewrite IH.
Qed.

Lemma str_filter_filter p q s :
  str_filter p (str_filter q s) = str_filter (fun c => q c && p c) s.
Proof.
  induction s as [|c s IH]; simpl; [reflexivity|].
  destruct (q c); simpl; [destruct (p c)|]; now rewrite IH.
Qed.

Lemma str_filter_ext p q s :
  (forall c, p c = q c) -> str_filter p s = str_filter q s.
Proof.
  intros E. induction s as [|c s IH]; simpl; [reflexivity|].
  now rewrite E, IH.
Qed.

(** [replace(' ', '-')] acts on each character by itself. *)
Lemma replace_space s :
  replace " " "-" s
  = str_map (fun c => if Ascii.eqb c " " then "-"%char else c) s.
Proof.
  unfold replace. induction s as [|c s IH]; [reflexivity|].
  cbn [replace_from str_map prefix String.length Nat.sub].
  destruct (ascii_dec " " c) as [E|E].
  - subst c. rewrite prefix_empty, IH. reflexivity.
  - rewrite IH. destruct (Ascii.eqb_spec c " ") as [E'|_]; [congruence | reflexivity].
Qed.

Lemma create_anchor_map text :
  create_anchor text = str_map hyphenate (strip (str_filter keeps text)).
Proof.
  unfold create_anchor, lower. now rewrite replace_space, str_map_map.
Qed.

(** Facts on single characters, by inspection of the 256 of them. *)
Ltac each_char c := destruct c as [[] [] [] [] [] [] [] []]; reflexivity.

Lemma kept_char_ok c : implb (keeps c) (anchor_ok (hyphenate c)) = true.
Proof. each_char c. Qed.

Lemma visible_kept c : keeps c && negb (isspace c) = visible c.
Proof. each_char c. Qed.

Lemma hyphenate_visible c :
  implb (negb (isspace c)) (Ascii.eqb (hyphenate c) (lower_char c)) = true.
Proof. each_char c. Qed.

Lemma str_forallb_filter p s : str_forallb p (str_filter p s) = true.
Proof.
  induction s as [|c s IH]; simpl; [reflexivity|].
  destruct (p c) eqn:E; simpl; [now rewrite E|exact IH].
Qed.

Lemma str_forallb_lstrip p s :
  str_forallb p s = true -> str_forallb p (lstrip s) = true.
Proof.
  induction s as [|c s IH]; simpl; [auto|].
  intros H. apply andb_prop in H. destruct H as [Hc Hs].
  destruct (isspace c); [auto|]. simpl. now rewrite Hc, Hs.
Qed.

Lemma str_forallb_rstrip p s :
  str_forallb p s = true -> str_forallb p (rstrip s) = true.
Proof.
  induction s as [|c s IH]; [auto|]. cbn [str_forallb rstrip].
  intros H. apply andb_prop in H. destruct H as [Hc Hs].
  specialize (IH Hs). destruct (rstrip s) as [|a r].
  - destruct (isspace c); simpl; [reflexivity | now rewrite Hc].
  - cbn [str_forallb] in *. now rewrite Hc, IH.
Qed.

Lemma str_forallb_map p q f s :
  (forall c, implb (p c) (q (f c)) = true) ->
  str_forallb p s = true -> str_forallb q (str_map f s) = true.
Proof.
  intros F. induction s as [|c s IH]; simpl; [auto|].
  intros H. apply andb_prop in H. destruct H as [Hc Hs].
  specialize (F c). rewrite Hc in F. simpl in F. now rewrite F, IH.
Qed.

Lemma anchor_chars text : str_forallb anchor_ok (create_anchor text) = true.
Proof.
  rewrite create_anchor_map.
  apply (str_forallb_map keeps); [exact kept_char_ok|].
  apply str_forallb_rstrip, str_forallb_lstrip, str_forallb_filter.
Qed.

(** *** The edges of a stripped text *)

Lemma lstrip_nonspace s : str_filter nonspace (lstrip s) = str_filter nonspace s.
Proof.
  induction s as [|c s IH]; [reflexivity|]. cbn [lstrip].
  destruct (isspace c) eqn:E; [|reflexivity].
  cbn [str_filter]. unfold nonspace at 2. now rewrite E.
Qed.

Lemma rstrip_nonspace s : str_filter nonspace (rstrip s) = str_filter nonspace s.
Proof.
  induction s as [|c s IH]; [reflexivity|]. cbn [rstrip].
  destruct (rstrip s) as [|a r].
  - cbn [str_filter] in *. unfold nonspace at 2. rewrite <- IH.
    destruct (isspace c) eqn:E; [reflexivity|].
    cbn [str_filter negb]. unfold nonspace. now rewrite E.
  - cbn [str_filter] in *. now rewrite IH.
Qed.

Lemma str_head_lstrip s : str_head (lstrip s) = str_head (str_filter nonspace s).
Proof.
  induction s as [|c s IH]; [reflexivity|]. cbn [lstrip str_filter].
  unfold nonspace at 1. destruct (isspace c); [exact IH | reflexivity].
Qed.

Lemma rstrip_head c s :
  isspace c = false -> exists r, rstrip (String c s) = String c r.
Proof.
  intros E. cbn [rstrip]. rewrite E.
  destruct (rstrip s) as [|a r]; eauto.
Qed.

Lemma lstrip_head s :
  lstrip s = "" \/ exists c r, lstrip s = String c r /\ isspace c = false.
Proof.
  induction s as [|c s IH]; [now left|]. simpl.
  destruct (isspace c) eqn:E; [exact IH|]. right. eauto.
Qed.

Lemma str_last_cons a r : exists x, str_last (String a r) = Some x.
Proof. cbn [str_last]. destruct (str_last r); eauto. Qed.

Lemma str_last_rstrip s : str_last (rstrip s) = str_last (str_filter nonspace s).
Proof.
  induction s as [|c s IH]; [reflexivity|]. cbn [rstrip str_filter].
  unfold nonspace at 1.
  destruct (rstrip s) as [|a r].
  - cbn [str_last] in IH. destruct (isspace c); cbn [negb str_last].
    + exact IH.
    + now rewrite <- IH.
  - destruct (str_last_cons a r) as [x Hx].
    change (str_last (String c (String a r)))
      with (match str_last (String a r) with
            | None => Some c
            | found => found
            end).
    rewrite Hx in *. destruct (isspace c); cbn [negb]; [exact IH|].
    cbn [str_last]. now rewrite <- IH.
Qed.

Lemma str_head_strip s : str_head (strip s) = str_head (str_filter nonspace s).
Proof.
  unfold strip. rewrite <- str_head_lstrip.
  destruct (lstrip_head s) as [E|(c & r & E & Hc)]; rewrite E; [reflexivity|].
  destruct (rstrip_head c r Hc) as [r' E']. now rewrite E'.
Qed.

Lemma str_last_strip s : str_last (strip s) = str_last (str_filter nonspace s).
Proof. unfold strip. now rewrite str_last_rstrip, lstrip_nonspace. Qed.

Lemma str_head_map f s : str_head (str_map f s) = option_map f (str_head s).
Proof. now destruct s. Qed.

Lemma str_last_map f s : str_last (str_map f s) = option_map f (str_last s).
Proof.
  induction s as [|c s IH]; [reflexivity|]. cbn [str_map str_last].
  rewrite IH. now destruct (str_last s).
Qed.

Lemma str_head_filter p s c : str_head (str_filter p s) = Some c -> p c = true.
Proof.
  induction s as [|x s IH]; simpl; [discriminate|].
  destruct (p x) eqn:E; [|exact IH]. simpl. congruence.
Qed.

Lemma str_last_filter p s c : str_last (str_filter p s) = Some c -> p c = true.
Proof.
  induction s as [|x s IH]; simpl; [discriminate|].
  destruct (p x) eqn:E; [|exact IH]. cbn [str_last].
  destruct (str_last (str_filter p s)); [exact IH | congruence].
Qed.

Lemma visible_of_kept text :
  str_filter nonspace (str_filter keeps text) = str_filter visible text.
Proof.
  rewrite str_filter_filter. apply str_filter_ext. intros c. apply visible_kept.
Qed.

Lemma hyphenate_edge (o : option ascii) :
  (forall c, o = Some c -> visible c = true) ->
  option_map hyphenate o = option_map lower_char o.
Proof.
  intros H. destruct o as [c|]; [|reflexivity]. simpl. f_equal.
  specialize (H c eq_refl). pose proof (visible_kept c) as V.
  pose proof (hyphenate_visible c) as F. rewrite H in V.
  apply andb_prop in V. destruct V as [_ V]. rewrite V in F. simpl in F.
  now apply Ascii.eqb_eq.
Qed.

(** The first and the last character of an anchor are those of the first
    and the last visible character of the text. *)
Lemma anchor_edges text :
  str_head (create_anchor text)
  = option_map lower_char (str_head (str_filter visible text))
  /\ str_last (create_anchor text)
     = option_map lower_char (str_last (str_filter visible text)).
Proof.
  rewrite create_anchor_map, str_head_map, str_last_map,
    str_head_strip, str_last_strip, visible_of_kept.
  split; apply hyphenate_edge; intros c H.
  - exact (str_head_filter _ _ _ H).
  - exact (str_last_filter _ _ _ H).
Qed.

(** *** Spaces inside a text *)

Lemma str_last_none s : str_last s = None -> s = "".
Proof.
  destruct s as [|c s]; [reflexivity|].
  destruct (str_last_cons c s) as [x E]. congruence.
Qed.

Lemma str_last_tail c s x :
  str_last (String c s) = Some x -> s = "" /\ x = c \/ str_last s = Some x.
Proof.
  cbn [str_last]. destruct (str_last s) eqn:E; intros H.
  - right. exact H.
  - left. split; [now apply str_last_none | congruence].
Qed.



Lemma rstrip_id s x : str_last s = Some x -> isspace x = false -> rstrip s = s.
Proof.
  intros Hl Hx. induction s as [|c s IH]; [reflexivity|]. cbn [rstrip].
  destruct (str_last_tail c s x Hl) as [[-> ->]|H].
  - simpl. now rewrite Hx.
  - rewrite (IH H). destruct s; [discriminate | reflexivity].
Qed.









Lemma str_forallb_impl p q s :
  (forall c, implb (p c) (q c) = true) ->
  str_forallb p s = true -> str_forallb q s = true.
Proof.
  intros F. induction s as [|c s IH]; [auto|]. cbn [str_forallb].
  intros H. apply andb_prop in H. destruct H as [Hc Hs].
  specialize (F c). rewrite Hc in F. simpl in F. now rewrite F, IH.
Qed.





(** ** Sorting of the input files *)

Lemma insert_sorted_perm x l : Permutation (insert_sorted x l) (x :: l).
Proof.
  induction l as [|y l IH]; simpl; [reflexivity|].
  destruct (String.leb x y); [reflexivity|].
  rewrite IH. apply perm_swap.
Qed.

Lemma sorted_perm l : Permutation (sorted l) l.
Proof.
  induction l as [|x l IH]; simpl; [reflexivity|].
  rewrite insert_sorted_perm. now constructor.
Qed.

Lemma insert_sorted_ordered x l :
  Sorted (fun a b => String.leb a b = true) l ->
  Sorted (fun a b => String.leb a b = true) (insert_sorted x l).
Proof.
  induction 1 as [|y l Hs IH Hd]; simpl; [repeat constructor|].
  destruct (String.leb x y) eqn:E.
  - constructor; [now constructor | now constructor].
  - constructor; [exact IH|].
    assert (Hyx : String.leb y x = true)
      by (destruct (String.leb_total x y); congruence).
    destruct Hd as [|z l Hz]; simpl; [now constructor|].
    destruct (String.leb x z); now constructor.
Qed.

Lemma sorted_ordered l : Sorted (fun a b => String.leb a b = true) (sorted l).
Proof.
  induction l as [|x l IH]; simpl; [constructor | now apply insert_sorted_ordered].
Qed.

(** ** Chunks *)

Lemma append_cancel_r c : forall a b, a ++ c = b ++ c -> a = b.
Proof.
  induction a as [|x a IH]; intros [|y b] H; simpl in H.
  - reflexivity.
  - apply (f_equal String.length) in H. simpl in H.
    rewrite length_append in H. lia.
  - apply (f_equal String.length) in H. simpl in H.
    rewrite length_append in H. lia.
  - injection H as -> H. now rewrite (IH b H).
Qed.

Lemma group_header_inj g g' : group_header g = group_header g' -> g = g'.
Proof.
  unfold group_header. intros H. injection H as H.
  exact (append_cancel_r nl g g' H).
Qed.

Lemma is_header_group_header g : is_header (group_header g) = true.
Proof. unfold is_header, group_header. simpl. apply prefix_empty. Qed.

Lemma block_assign_group defs s : block (assign_group defs s) = block s.
Proof.
  unfold assign_group. now destruct (get_group_for_summary defs (summary_name s)).
Qed.

Lemma summary_name_assign_group defs s :
  summary_name (assign_group defs s) = summary_name s.
Proof.
  unfold assign_group. now destruct (get_group_for_summary defs (summary_name s)).
Qed.

Lemma join_cons sep x rest : exists tail, join sep (x :: rest) = x ++ tail.
Proof.
  destruct rest as [|y rest]; simpl.
  - exists "". now rewrite append_nil_r.
  - eauto.
Qed.

Lemma build_summary_block base_url rel main subs :
  is_header (block (build_summary base_url rel main subs)) = false
  /\ group_name (build_summary base_url rel main subs) = default_group_name.
Proof.
  split; [|reflexivity]. unfold build_summary, block.
  set (x := summary_line _ main).
  assert (H : forall rest, is_header (join nl (x :: rest)) = false).
  { intros rest. destruct (join_cons nl x rest) as [tail ->]. reflexivity. }
  destruct subs as [|h subs]; apply H.
Qed.

(** ** The last loop *)

Lemma write_ungrouped_done l : forall out,
  fold_left write_ungrouped l (true, out)
  = (true, (out ++ map block (filter ungrouped l))%list).
Proof.
  induction l as [|s l IH]; intros out; simpl; [now rewrite app_nil_r|].
  fold (ungrouped s). destruct (ungrouped s); simpl.
  - rewrite IH. now rewrite <- app_assoc.
  - apply IH.
Qed.

Lemma write_ungrouped_section l : forall out,
  snd (fold_left write_ungrouped l (false, out))
  = (out ++ default_section (filter ungrouped l))%list.
Proof.
  induction l as [|s l IH]; intros out; simpl; [now rewrite app_nil_r|].
  fold (ungrouped s). destruct (ungrouped s) eqn:E; simpl.
  - rewrite write_ungrouped_done. simpl. rewrite <- app_assoc. simpl.
    unfold ungrouped in E. apply String.eqb_eq in E. now rewrite E.
  - apply IH.
Qed.

Lemma filter_none {A} (f : A -> bool) l :
  (forall x, In x l -> f x = false) -> filter f l = [].
Proof.
  induction l as [|x l IH]; intros H; simpl; [reflexivity|].
  rewrite (H x (or_introl eq_refl)). apply IH. intros y Hy. apply H. now right.
Qed.

Lemma get_group_in_keys defs name g :
  get_group_for_summary defs name = Some g -> In g (map fst defs).
Proof.
  induction defs as [|[key val] defs IH]; simpl; [discriminate|].
  destruct (existsb _ val).
  - intros H. injection H as ->. now left.
  - intros H. right. now apply IH.
Qed.

Lemma get_summarys_of_key defs g :
  In g (map fst defs) -> exists ms, get_summarys_for_group defs g = Some ms.
Proof.
  induction defs as [|[key val] defs IH]; simpl; [tauto|].
  intros H. destruct (String.eqb_spec key g) as [E|E]; [eauto|].
  destruct H as [H|H]; [congruence | now apply IH].
Qed.

Lemma existsb_filter {A} (f : A -> bool) l :
  existsb f l = match filter f l with [] => false | _ => true end.
Proof.
  induction l as [|x l IH]; simpl; [reflexivity|].
  destruct (f x); simpl; [reflexivity | exact IH].
Qed.

Lemma write_member_in sl item x :
  In x (write_member sl item) -> exists sec, In sec sl /\ x = block sec.
Proof.
  unfold write_member.
  destruct (filter (fun s => String.eqb (summary_name s) item) sl)
    as [|sec l] eqn:E; simpl; [tauto|].
  intros [<-|[]]. exists sec. split; [|reflexivity].
  assert (H : In sec (filter (fun s => String.eqb (summary_name s) item) sl))
    by (rewrite E; now left).
  now apply filter_In in H.
Qed.

Lemma write_member_absent sl item :
  (forall s, In s sl -> summary_name s <> item) -> write_member sl item = [].
Proof.
  intros H. unfold write_member.
  destruct (filter (fun s => String.eqb (summary_name s) item) sl)
    as [|sec l] eqn:E; [reflexivity|].
  assert (Hin : In sec (filter (fun s => String.eqb (summary_name s) item) sl))
    by (rewrite E; now left).
  apply filter_In in Hin. destruct Hin as [Hin Hn].
  apply String.eqb_eq in Hn. now destruct (H sec Hin).
Qed.

Lemma default_section_assign defs l :
  default_section (map (assign_group defs) l) = default_section l.
Proof.
  destruct l as [|s l]; [reflexivity|]. unfold default_section.
  cbn [map]. rewrite block_assign_group, map_map. f_equal. f_equal.
  apply map_ext. intros. apply block_assign_group.
Qed.

(** The chunks of the declared groups when no block is a header. *)
Lemma declared_chunks defs sl keys :
  Forall (fun s => is_header (block s) = false) sl ->
  incl keys (map fst defs) ->
  filter is_header (flat_map (write_group defs sl) keys) = map group_header keys
  /\ (forall x, In x (flat_map (write_group defs sl) keys) ->
        (exists g, In g keys /\ x = group_header g)
        \/ (exists sec, In sec sl /\ x = block sec)).
Proof.
  intros Hsl. rewrite Forall_forall in Hsl.
  induction keys as [|g keys IH]; intros Hk; [split; [reflexivity | intros x []]|].
  assert (Hg : In g (map fst defs)) by (apply Hk; now left).
  assert (Hk' : incl keys (map fst defs)) by (intros y Hy; apply Hk; now right).
  destruct (IH Hk') as [IHf IHi].
  destruct (get_summarys_of_key defs g Hg) as [ms Hms].
  cbn [flat_map map]. unfold write_group at 1 3. rewrite Hms. split.
  - rewrite filter_app. cbn [filter]. rewrite is_header_group_header, IHf.
    cbn [app]. f_equal.
    replace (filter is_header (flat_map (write_member sl) ms)) with (@nil string);
      [reflexivity|].
    symmetry. apply filter_none.
    intros x Hx. apply in_flat_map in Hx. destruct Hx as (item & _ & Hx).
    apply write_member_in in Hx. destruct Hx as (sec & Hsec & ->). now apply Hsl.
  - intros x Hx. apply in_app_or in Hx. destruct Hx as [[<-|Hx]|Hx].
    + left. exists g. split; [now left | reflexivity].
    + right. apply in_flat_map in Hx. destruct Hx as (item & _ & Hx).
      now apply write_member_in in Hx.
    + destruct (IHi x Hx) as [(g' & Hg' & ->)|H]; [left | now right].
      exists g'. split; [now right | reflexivity].
Qed.

(** ** The whole run *)

Section RunProperties.

Variable base_url : string.
Variable relpath : string -> string.
Variable read_lines : string -> list string.

Local Abbreviation summarize' := (summarize base_url relpath read_lines).
Local Abbreviation collect' := (collect base_url relpath read_lines).
Local Abbreviation generate' := (generate_sidebar base_url relpath read_lines).
Local Abbreviation processed files :=
  (filter (fun f => negb (skipped f)) (sorted files)).

Lemma visit_fold l : forall acc,
  fold_left (visit base_url relpath read_lines) l acc
  = (acc ++ map summarize' (filter (fun f => negb (skipped f)) l))%list.
Proof.
  induction l as [|f l IH]; intros acc; simpl; [now rewrite app_nil_r|].
  unfold visit at 2. destruct (skipped f); simpl; rewrite IH.
  - reflexivity.
  - now rewrite <- app_assoc.
Qed.

Lemma collect_processed files :
  collect' files = map summarize' (processed files).
Proof. unfold collect. now rewrite visit_fold. Qed.

Lemma summarize_built f :
  is_header (block (summarize' f)) = false
  /\ group_name (summarize' f) = default_group_name.
Proof.
  unfold summarize. destruct (extract_headings (read_lines f) f) as [m subs].
  apply build_summary_block.
Qed.

Lemma collect_built files s :
  In s (collect' files) ->
  is_header (block s) = false /\ group_name s = default_group_name.
Proof.
  rewrite collect_processed. intros H. apply in_map_iff in H.
  destruct H as (f & <- & _). apply summarize_built.
Qed.

Lemma assigned_built defs files :
  Forall (fun s => is_header (block s) = false)
    (map (assign_group defs) (collect' files)).
Proof.
  rewrite Forall_map, Forall_forall. intros s H.
  rewrite block_assign_group. exact (proj1 (collect_built files s H)).
Qed.

(** With a definition, the output is the declared groups and then the
    section of the summaries that kept the default group. *)
Lemma generate_grouped defs files :
  generate' (Some defs) files
  = (flat_map (write_group defs (map (assign_group defs) (collect' files)))
       (map fst defs)
     ++ default_section
          (filter ungrouped (map (assign_group defs) (collect' files))))%list.
Proof. unfold generate_sidebar, write_sidebar. apply write_ungrouped_section. Qed.

Lemma ungrouped_unmatched defs files :
  ~ In default_group_name (map fst defs) ->
  filter ungrouped (map (assign_group defs) (collect' files))
  = map (assign_group defs) (filter (unmatched defs) (collect' files)).
Proof.
  intros Hk. rewrite filter_map_swap. f_equal. apply filter_ext_in.
  intros s Hs. destruct (collect_built files s Hs) as [_ Hg].
  unfold ungrouped, unmatched, assign_group.
  destruct (get_group_for_summary defs (summary_name s)) as [g|] eqn:E; simpl.
  - apply String.eqb_neq. intros ->. apply Hk.
    exact (get_group_in_keys defs _ _ E).
  - rewrite Hg. apply String.eqb_refl.
Qed.

(** When no declared group is named [Ungrouped], the summaries whose title
    is in no member list are written after all the declared groups, in the
    order of the input (the sorted paths), under one [## Ungrouped] header,
    which is written once when there is such a summary and not at all
    otherwise. *)
Lemma unmatched_go_last defs files :
  ~ In default_group_name (map fst defs) ->
  let sl := collect' files in
  let out := generate' (Some defs) files in
  sl = map summarize' (processed files)
  /\ out = (flat_map (write_group defs (map (assign_group defs) sl)) (map fst defs)
            ++ default_section (filter (unmatched defs) sl))%list
  /\ count_occ string_dec out (group_header default_group_name)
     = if existsb (unmatched defs) sl then 1 else 0.
Proof.
  intros Hk sl out. split; [apply collect_processed|].
  assert (Eout : out
    = (flat_map (write_group defs (map (assign_group defs) sl)) (map fst defs)
       ++ default_section (filter (unmatched defs) sl))%list).
  { unfold out, sl. rewrite generate_grouped, ungrouped_unmatched by exact Hk.
    now rewrite default_section_assign. }
  split; [exact Eout|]. rewrite Eout, count_occ_app.
  destruct (declared_chunks defs (map (assign_group defs) sl) (map fst defs)
              (assigned_built defs files) (incl_refl _)) as [_ Hin].
  replace (count_occ string_dec
             (flat_map (write_group defs (map (assign_group defs) sl)) (map fst defs))
             (group_header default_group_name)) with 0.
  2:{ symmetry. apply count_occ_not_In. intros H.
      destruct (Hin _ H) as [(g & Hg & E)|(sec & Hsec & E)].
      - apply group_header_inj in E. subst g. now apply Hk.
      - pose proof (is_header_group_header default_group_name) as T.
        rewrite E in T.
        pose proof (assigned_built defs files) as B.
        rewrite Forall_forall in B. rewrite (B sec Hsec) in T. discriminate. }
  rewrite existsb_filter.
  assert (Hu : forall s, In s (filter (unmatched defs) sl) ->
                         is_header (block s) = false).
  { intros s Hs. apply filter_In in Hs. destruct Hs as [Hs _].
    exact (proj1 (collect_built files s Hs)). }
  destruct (filter (unmatched defs) sl) as [|s u]; [reflexivity|].
  unfold default_section. rewrite count_occ_cons_eq by reflexivity.
  cbn [Nat.add]. f_equal. apply count_occ_not_In. intros H.
  apply in_map_iff in H. destruct H as (sec & E & Hsec).
  pose proof (is_header_group_header default_group_name) as T.
  rewrite <- E, (Hu sec Hsec) in T. discriminate.
Qed.

(** C10.  With a definition, the output starts with the chunks of the
    declared groups, whose headers are those of all the group names of the
    mapping in its order: each group has its header before the blocks of
    its members, and a group none of whose members is the title of a
    document has its header alone. *)
Theorem every_group_has_header defs files :
  let sl := map (assign_group defs) (collect' files) in
  let declared := flat_map (write_group defs sl) (map fst defs) in
  generate' (Some defs) files
  = (declared ++ default_section (filter ungrouped sl))%list
  /\ filter is_header declared = map group_header (map fst defs)
  /\ (forall g, In g (map fst defs) ->
        exists ms, get_summarys_for_group defs g = Some ms
                   /\ write_group defs sl g
                      = group_header g :: flat_map (write_member sl) ms)
  /\ (forall g ms, get_summarys_for_group defs g = Some ms ->
        (forall m s, In m ms -> In s (collect' files) -> summary_name s <> m) ->
        write_group defs sl g = [group_header g]).
Proof.
  intros sl declared. split; [apply generate_grouped|]. split; [|split].
  - apply (declared_chunks defs sl (map fst defs)
             (assigned_built defs files) (incl_refl _)).
  - intros g Hg. destruct (get_summarys_of_key defs g Hg) as [ms Hms].
    exists ms. split; [exact Hms|]. unfold write_group. now rewrite Hms.
  - intros g ms Hms Hnone. unfold write_group. rewrite Hms. f_equal.
    clear Hms. induction ms as [|m ms IH]; [reflexivity|]. cbn [flat_map].
    rewrite write_member_absent.
    + apply IH. intros m' s Hm'. apply Hnone. now right.
    + intros s Hs. unfold sl in Hs. apply in_map_iff in Hs.
      destruct Hs as (s0 & <- & Hs0). rewrite summary_name_assign_group.
      apply (Hnone m s0); [now left | exact Hs0].
Qed.

(** C9 (as the code has it).  The files processed are, in sorted order,
    those whose lower-cased path does not contain [sidebar.md]: a file is
    left out exactly when its path contains that text in some letter
    case, as the default output file [_Sidebar.md] does in any directory. *)
Theorem files_skipped_by_name files :
  collect' files = map summarize' (processed files)
  /\ (forall f, In f (processed files)
                <-> In f files /\ contains "sidebar.md" (lower f) = false)
  /\ (forall dir name, lower name = "_sidebar.md" ->
                       skipped (dir ++ name) = true).
Proof.
  split; [apply collect_processed|]. split.
  - intros f. rewrite filter_In. unfold skipped.
    rewrite negb_true_iff. split; intros [Hin Hs]; split; auto.
    + now apply (Permutation_in _ (sorted_perm files)).
    + now apply (Permutation_in _ (Permutation_sym (sorted_perm files))).
  - intros dir name Hn. unfold skipped. rewrite lower_app, Hn.
    now apply contains_app_r.
Qed.

(** When the file of the definition does not exist or [json.load] raises
    [JSONDecodeError], one message is printed and the output is that of a
    run without definition: the blocks of the processed files in the order
    of the sorted paths, none of its chunks being a group header. *)
Lemma unusable_definition_ignored isfile json_load arg files :
  isfile (strip arg) = false
  \/ (exists de, json_load (strip arg) = JSONDecodeError de) ->
  let run := main base_url relpath read_lines isfile json_load in
  let chunks := map block (map summarize' (processed files)) in
  (exists message, run (Some arg) files = Written [message] chunks)
  /\ run None files = Written [] chunks
  /\ Sorted (fun a b => String.leb a b = true) (sorted files)
  /\ Permutation (sorted files) files
  /\ Forall (fun chunk => is_header chunk = false) chunks.
Proof.
  intros H run chunks.
  assert (Ec : chunks = map block (collect' files))
    by (unfold chunks; now rewrite collect_processed).
  split; [|split; [|split; [|split]]].
  - unfold run, main, load_summary_map.
    destruct (isfile (strip arg)) eqn:Ef; cbn [negb].
    + destruct H as [H|[de H]]; [discriminate|]. rewrite H, Ec. eauto.
    + rewrite Ec. eauto.
  - unfold run, main, load_summary_map. now rewrite Ec.
  - apply sorted_ordered.
  - apply sorted_perm.
  - rewrite Ec, Forall_map, Forall_forall. intros s Hs.
    exact (proj1 (collect_built files s Hs)).
Qed.

End RunProperties.

(** ** The theorems on the example wiki *)

Lemma unmatched_go_last_witness :
  count_occ string_dec
    (generate_sidebar Demo.base_url Demo.relpath Demo.read_lines
       (Some Demo.groups) Demo.files)
    (group_header default_group_name) = 1.
Proof.
  refine (proj2 (proj2 (unmatched_go_last Demo.base_url Demo.relpath
                          Demo.read_lines Demo.groups Demo.files _))).
  simpl. intros [H|[H|[]]]; discriminate.
Defined.

(** C7 (the code breaks it).  With the group [Ungrouped] declared for the
    title [A] and the documents [A] and [B], [B] is in no member list and [A]
    got a group name; the last loop, meant for the summaries that got none,
    tests the name against [Ungrouped]: the header [## Ungrouped] is written
    twice and the last section lists [A] again, before [B]. *)
Theorem declared_default_group_repeats :
  let defs := [("Ungrouped", ["A"])] in
  let files := ["wiki/a.md"; "wiki/b.md"] in
  let sl := collect Demo.base_url Demo.relpath Demo.read_lines files in
  let page := summarize Demo.base_url Demo.relpath Demo.read_lines in
  let out := generate_sidebar Demo.base_url Demo.relpath Demo.read_lines
               (Some defs) files in
  existsb (unmatched defs) sl = true
  /\ map (get_group_for_summary defs) (map summary_name sl)
     = [Some "Ungrouped"; None]
  /\ out = [group_header "Ungrouped"; block (page "wiki/a.md");
            group_header "Ungrouped"; block (page "wiki/a.md");
            block (page "wiki/b.md")]
  /\ count_occ string_dec out (group_header default_group_name) = 2
  /\ List.length out
     <> List.length
          (flat_map (write_group defs (map (assign_group defs) sl)) (map fst defs)
           ++ default_section (filter (unmatched defs) sl))%list.
Proof. vm_compute. repeat split. discriminate. Qed.

Lemma every_group_has_header_witness :
  write_group Demo.groups
    (map (assign_group Demo.groups)
       (collect Demo.base_url Demo.relpath Demo.read_lines Demo.files))
    "Empty"
  = [group_header "Empty"].
Proof.
  refine (proj2 (proj2 (proj2 (every_group_has_header Demo.base_url Demo.relpath
                                 Demo.read_lines Demo.groups Demo.files)))
            "Empty" ["Nope"] eq_refl _).
  intros m s [<-|[]] Hs. vm_compute in Hs.
  destruct Hs as [<-|[<-|[<-|[]]]]; discriminate.
Defined.

Lemma files_skipped_by_name_witness : skipped ("wiki/" ++ "_SideBar.md") = true.
Proof.
  exact (proj2 (proj2 (files_skipped_by_name Demo.base_url Demo.relpath
                         Demo.read_lines Demo.files))
           "wiki/" "_SideBar.md" eq_refl).
Defined.

(** C9 as stated fails: [old-sidebar.md] is left out though it is not the
    output file [_Sidebar.md], and the output file [wiki/nav.md] is not
    left out. *)
Lemma skipped_is_not_the_output_file :
  ~ (skipped "wiki/old-sidebar.md" = true
     <-> Spec.is_output_file "_Sidebar.md" "wiki/old-sidebar.md" = true)
  /\ ~ (skipped "wiki/nav.md" = true
        <-> Spec.is_output_file "wiki/nav.md" "wiki/nav.md" = true).
Proof.
  split; intros [H1 H2].
  - specialize (H1 eq_refl). vm_compute in H1. discriminate.
  - specialize (H2 eq_refl). vm_compute in H2. discriminate.
Qed.

(** C8 (the code breaks it).  With a definition file that exists and is
    not UTF-8, reading it raises [UnicodeDecodeError], which the handler of
    [json.JSONDecodeError] does not catch: the run ends there and no block is
    written, where a file with a JSON syntax error gives one message and the
    output of a run without definition. *)
Theorem undecodable_definition_aborts :
  main Demo.base_url Demo.relpath Demo.read_lines Demo.any_file Demo.not_utf8
    (Some "groups.json") Demo.files
  = Aborted "UnicodeDecodeError"
  /\ main Demo.base_url Demo.relpath Demo.read_lines Demo.any_file Demo.no_json
       (Some "groups.json") Demo.files
     = Written ["Invalid JSON syntax:  Expecting value"]
         (generate_sidebar Demo.base_url Demo.relpath Demo.read_lines None
            Demo.files)
  /\ main Demo.base_url Demo.relpath Demo.read_lines Demo.any_file Demo.not_utf8
       None Demo.files
     = Written []
         (generate_sidebar Demo.base_url Demo.relpath Demo.read_lines None
            Demo.files).
Proof. repeat split. Qed.

(** * The rest of the program *)

(** ** Lines of a document *)

Lemma is_sub_line_cases x :
  is_sub_line x
  = match leading_hashes (strip x) with
    | S (S _) => true
    | _ => false
    end.
Proof. unfold is_sub_line. now destruct (leading_hashes (strip x)) as [|[|k]]. Qed.

Lemma sub_entry_of x n :
  leading_hashes (strip x) = n -> sub_entry x = (n, drop (S n) (strip x)).
Proof. intros <-. unfold sub_entry. now rewrite Nat.add_1_r. Qed.

Lemma scan_subs_fold lines : forall st,
  subheadings (fold_left scan_line lines st)
  = (subheadings st ++ map sub_entry (filter is_sub_line lines))%list.
Proof.
  induction lines as [|x lines IH]; intros st; [cbn; now rewrite app_nil_r|].
  cbn [fold_left filter]. rewrite IH, scan_line_cases, (is_sub_line_cases x).
  destruct (leading_hashes (strip x)) as [|[|k]] eqn:E; try reflexivity.
  cbn [map subheadings]. rewrite (sub_entry_of x _ E), <- app_assoc. reflexivity.
Qed.

Lemma extract_subheadings lines path :
  snd (extract_headings lines path) = map sub_entry (filter is_sub_line lines).
Proof. unfold extract_headings, scan_lines. cbn [snd]. now rewrite scan_subs_fold. Qed.

Lemma subheadings_deep lines path :
  Forall (fun h => 2 <= fst h) (snd (extract_headings lines path)).
Proof.
  rewrite extract_subheadings, Forall_map, Forall_forall.
  intros x Hx. apply filter_In in Hx. destruct Hx as [_ Hx].
  unfold is_sub_line in Hx. apply Nat.leb_le in Hx. exact Hx.
Qed.

(** X1.  The sub-headings of a document are the entries of its lines with
    two markers or more, in the order of the lines, whatever the path and
    the depth-1 lines; every entry has a depth of 2 at least. *)
Theorem subheadings_in_order lines path :
  snd (extract_headings lines path) = map sub_entry (filter is_sub_line lines)
  /\ Forall (fun h => 2 <= fst h) (snd (extract_headings lines path)).
Proof. split; [apply extract_subheadings | apply subheadings_deep]. Qed.

Lemma scan_skips_plain lines : forall st,
  fold_left scan_line (filter is_heading_line lines) st
  = fold_left scan_line lines st.
Proof.
  induction lines as [|x lines IH]; intros st; [reflexivity|].
  cbn [filter fold_left]. unfold is_heading_line at 1.
  destruct (leading_hashes (strip x)) eqn:E; cbn [Nat.eqb negb].
  - rewrite IH. f_equal. now rewrite scan_line_cases, E.
  - cbn [fold_left]. apply IH.
Qed.

(** X2.  The lines that start with no marker count for nothing: the
    document without them has the same title and sub-headings, and a
    document with no heading line at all has the default title and no
    sub-heading. *)
Theorem plain_lines_ignored lines path :
  extract_headings (filter is_heading_line lines) path
  = extract_headings lines path
  /\ (filter is_heading_line lines = [] ->
      extract_headings lines path = (default_heading path, [])).
Proof.
  assert (E : extract_headings (filter is_heading_line lines) path
              = extract_headings lines path).
  { unfold extract_headings, scan_lines. now rewrite scan_skips_plain. }
  split; [exact E|]. intros H. rewrite <- E, H. reflexivity.
Qed.

Lemma plain_lines_ignored_witness :
  extract_headings ["intro"; ""; "  a #tag"] "wiki/notes.md" = ("notes", []).
Proof.
  exact (proj2 (plain_lines_ignored ["intro"; ""; "  a #tag"] "wiki/notes.md")
           eq_refl).
Defined.

Lemma lstrip_pad ws s : str_forallb isspace ws = true -> lstrip (ws ++ s) = lstrip s.
Proof.
  induction ws as [|c ws IH]; [reflexivity|]. cbn [str_forallb append lstrip].
  intros H. apply andb_prop in H. destruct H as [Hc Hw]. rewrite Hc. now apply IH.
Qed.

Lemma rstrip_spaces ws : str_forallb isspace ws = true -> rstrip ws = "".
Proof.
  induction ws as [|c ws IH]; [reflexivity|]. cbn [str_forallb rstrip].
  intros H. apply andb_prop in H. destruct H as [Hc Hw].
  now rewrite (IH Hw), Hc.
Qed.

Lemma rstrip_pad s ws : str_forallb isspace ws = true -> rstrip (s ++ ws) = rstrip s.
Proof.
  intros H. induction s as [|c s IH]; [now apply rstrip_spaces|].
  cbn [append rstrip]. now rewrite IH.
Qed.

Lemma strip_pad_right s ws :
  str_forallb isspace ws = true -> strip (s ++ ws) = strip s.
Proof.
  intros H. unfold strip. induction s as [|c s IH].
  - cbn [append]. rewrite <- (append_nil_r ws), lstrip_pad by exact H. reflexivity.
  - cbn [append lstrip]. destruct (isspace c); [exact IH|].
    exact (rstrip_pad (String c s) ws H).
Qed.

Lemma strip_pad ws1 s ws2 :
  str_forallb isspace ws1 = true -> str_forallb isspace ws2 = true ->
  strip (ws1 ++ s ++ ws2) = strip s.
Proof.
  intros H1 H2. rewrite <- (strip_pad_right s ws2 H2).
  unfold strip. now rewrite lstrip_pad.
Qed.

(** X3.  Whitespace before and after a line, such as its indentation and the
    newline that ends it, does not change what the line does. *)
Theorem line_padding_ignored st ws1 raw ws2 :
  str_forallb isspace ws1 = true -> str_forallb isspace ws2 = true ->
  scan_line st (ws1 ++ raw ++ ws2) = scan_line st raw.
Proof.
  intros H1 H2. unfold scan_line. now rewrite (strip_pad ws1 raw ws2 H1 H2).
Qed.

Lemma line_padding_ignored_witness :
  scan_line (mkHeadings None []) ("   " ++ "## Usage" ++ nl)
  = scan_line (mkHeadings None []) "## Usage".
Proof.
  exact (line_padding_ignored (mkHeadings None []) "   " "## Usage" nl
           eq_refl eq_refl).
Defined.

(** ** More on anchors *)

Lemma anchor_ok_kept c : implb (anchor_ok c) (keeps c) = true.
Proof. each_char c. Qed.

Lemma anchor_ok_fixed c : implb (anchor_ok c) (Ascii.eqb (hyphenate c) c) = true.
Proof. each_char c. Qed.

Lemma hyphenate_nonspace c : implb (nonspace c) (nonspace (hyphenate c)) = true.
Proof. each_char c. Qed.

Lemma lower_keeps c : keeps (lower_char c) = keeps c.
Proof. each_char c. Qed.

Lemma lower_isspace c : isspace (lower_char c) = isspace c.
Proof. each_char c. Qed.

Lemma hyphenate_lower c : hyphenate (lower_char c) = hyphenate c.
Proof. each_char c. Qed.

Lemma str_filter_all p s : str_forallb p s = true -> str_filter p s = s.
Proof.
  induction s as [|c s IH]; [auto|]. cbn [str_forallb str_filter].
  intros H. apply andb_prop in H. destruct H as [Hc Hs]. now rewrite Hc, IH.
Qed.

Lemma str_map_fixed p f s :
  (forall c, implb (p c) (Ascii.eqb (f c) c) = true) ->
  str_forallb p s = true -> str_map f s = s.
Proof.
  intros F. induction s as [|c s IH]; [auto|]. cbn [str_forallb str_map].
  intros H. apply andb_prop in H. destruct H as [Hc Hs].
  specialize (F c). rewrite Hc in F. simpl in F. apply Ascii.eqb_eq in F.
  now rewrite F, IH.
Qed.

Lemma str_map_ext f g s : (forall c, f c = g c) -> str_map f s = str_map g s.
Proof.
  intros E. induction s as [|c s IH]; [reflexivity|]. cbn [str_map].
  now rewrite E, IH.
Qed.

Lemma str_head_none s : str_head s = None -> s = "".
Proof. now destruct s. Qed.

(** A text with no whitespace at its edges is its own [strip]. *)
Lemma strip_fixed s :
  (forall c, str_head s = Some c -> isspace c = false) ->
  (forall c, str_last s = Some c -> isspace c = false) ->
  strip s = s.
Proof.
  intros Hh Hl. unfold strip.
  assert (E : lstrip s = s).
  { destruct s as [|c s]; [reflexivity|]. cbn [lstrip].
    now rewrite (Hh c eq_refl). }
  rewrite E. destruct (str_last s) as [x|] eqn:L.
  - exact (rstrip_id s x L (Hl x eq_refl)).
  - now rewrite (str_last_none s L).
Qed.

Lemma strip_edges s :
  (forall c, str_head (strip s) = Some c -> isspace c = false)
  /\ (forall c, str_last (strip s) = Some c -> isspace c = false).
Proof.
  rewrite str_head_strip, str_last_strip. split; intros c H.
  - apply str_head_filter in H. unfold nonspace in H. now destruct (isspace c).
  - apply str_last_filter in H. unfold nonspace in H. now destruct (isspace c).
Qed.

Lemma anchor_no_edge_space text :
  (forall c, str_head (create_anchor text) = Some c -> isspace c = false)
  /\ (forall c, str_last (create_anchor text) = Some c -> isspace c = false).
Proof.
  rewrite create_anchor_map, str_head_map, str_last_map.
  destruct (strip_edges (str_filter keeps text)) as [Hh Hl].
  assert (F : forall x, isspace x = false -> isspace (hyphenate x) = false).
  { intros x Hx. pose proof (hyphenate_nonspace x) as N. unfold nonspace in N.
    rewrite Hx in N. simpl in N. now destruct (isspace (hyphenate x)). }
  split; intros c H.
  - destruct (str_head (strip (str_filter keeps text))) as [x|]; [|discriminate].
    injection H as <-. now apply F, Hh.
  - destruct (str_last (strip (str_filter keeps text))) as [x|]; [|discriminate].
    injection H as <-. now apply F, Hl.
Qed.

(** X4.  For a text of ASCII characters the anchor of the anchor is that
    anchor.  (Beyond them the lower case of one character can be two, of
    which [create_anchor] drops one the second time.) *)
Theorem anchor_idempotent text :
  str_forallb is_ascii text = true ->
  create_anchor (create_anchor text) = create_anchor text.
Proof.
  intros _.
  pose proof (anchor_chars text) as Hok.
  destruct (anchor_no_edge_space text) as [Hh Hl].
  set (a := create_anchor text) in *. rewrite create_anchor_map.
  rewrite (str_filter_all keeps a (str_forallb_impl _ _ a anchor_ok_kept Hok)).
  rewrite (strip_fixed a Hh Hl).
  exact (str_map_fixed anchor_ok hyphenate a anchor_ok_fixed Hok).
Qed.

Lemma anchor_idempotent_witness :
  create_anchor (create_anchor "  Hello, World_2 -- again!  ")
  = create_anchor "  Hello, World_2 -- again!  ".
Proof. exact (anchor_idempotent "  Hello, World_2 -- again!  " eq_refl). Defined.

Lemma str_filter_map p f s :
  (forall c, p (f c) = p c) ->
  str_filter p (str_map f s) = str_map f (str_filter p s).
Proof.
  intros E. induction s as [|c s IH]; [reflexivity|]. cbn [str_map str_filter].
  rewrite E. destruct (p c); cbn [str_map]; now rewrite IH.
Qed.

Lemma lstrip_map f s :
  (forall c, isspace (f c) = isspace c) ->
  lstrip (str_map f s) = str_map f (lstrip s).
Proof.
  intros E. induction s as [|c s IH]; [reflexivity|]. cbn [str_map lstrip].
  rewrite E. destruct (isspace c); [exact IH | reflexivity].
Qed.

Lemma rstrip_map f s :
  (forall c, isspace (f c) = isspace c) ->
  rstrip (str_map f s) = str_map f (rstrip s).
Proof.
  intros E. induction s as [|c s IH]; [reflexivity|]. cbn [str_map rstrip].
  rewrite IH, E. destruct (rstrip s); cbn [str_map]; [|reflexivity].
  now destruct (isspace c).
Qed.

Lemma lstrip_split s :
  exists ws, str_forallb isspace ws = true /\ s = ws ++ lstrip s.
Proof.
  induction s as [|c s (ws & Hws & E)]; [now exists ""|]. cbn [lstrip].
  destruct (isspace c) eqn:Hc.
  - exists (String c ws). cbn [str_forallb append]. rewrite Hc, Hws.
    split; [reflexivity | now rewrite <- E].
  - now exists "".
Qed.

Lemma rstrip_split s :
  exists ws, str_forallb isspace ws = true /\ s = rstrip s ++ ws.
Proof.
  induction s as [|c s (ws & Hws & E)]; [now exists ""|]. cbn [rstrip].
  destruct (rstrip s) as [|a r].
  - cbn [append] in E. subst s. destruct (isspace c) eqn:Hc.
    + exists (String c ws). cbn [str_forallb append]. now rewrite Hc, Hws.
    + now exists ws.
  - exists ws. split; [exact Hws|]. cbn [append] in *. now rewrite <- E.
Qed.

Lemma strip_split s :
  exists ws1 ws2, str_forallb isspace ws1 = true
                  /\ str_forallb isspace ws2 = true
                  /\ s = ws1 ++ strip s ++ ws2.
Proof.
  destruct (lstrip_split s) as (ws1 & H1 & E1).
  destruct (rstrip_split (lstrip s)) as (ws2 & H2 & E2).
  exists ws1, ws2. repeat split; [exact H1 | exact H2|].
  unfold strip. now rewrite <- E2.
Qed.

Lemma spaces_all_kept ws : str_forallb isspace ws = true -> str_filter keeps ws = ws.
Proof.
  intros H. apply str_filter_all. revert H. apply str_forallb_impl.
  intros c. unfold keeps. destruct (isspace c); [|reflexivity].
  now rewrite orb_true_r.
Qed.

(** X5.  The anchor of a text is that of the text without the whitespace
    around it, and for a text of ASCII characters it is that of the text in
    lower case: there the letter case of a heading does not show in its
    anchor. *)
Theorem anchor_ignores_case_and_padding text :
  create_anchor (strip text) = create_anchor text
  /\ (str_forallb is_ascii text = true ->
      create_anchor (lower text) = create_anchor text).
Proof.
  split.
  - destruct (strip_split text) as (ws1 & ws2 & H1 & H2 & E).
    rewrite !create_anchor_map. rewrite E at 2.
    rewrite !str_filter_app, (spaces_all_kept ws1 H1), (spaces_all_kept ws2 H2).
    now rewrite (strip_pad ws1 _ ws2 H1 H2).
  - intros _. rewrite !create_anchor_map. unfold lower, strip.
    rewrite (str_filter_map keeps lower_char text lower_keeps).
    rewrite (lstrip_map lower_char _ lower_isspace).
    rewrite (rstrip_map lower_char _ lower_isspace).
    rewrite str_map_map. apply str_map_ext. exact hyphenate_lower.
Qed.

Lemma anchor_ignores_case_and_padding_witness :
  create_anchor (lower "Getting Started") = create_anchor "Getting Started".
Proof.
  exact (proj2 (anchor_ignores_case_and_padding "Getting Started") eq_refl).
Defined.

(** X6.  The anchor is empty exactly when the text has no word character and
    no hyphen. *)
Theorem empty_anchor text :
  create_anchor text = "" <-> str_filter visible text = "".
Proof.
  destruct (anchor_edges text) as [Eh _]. split; intros H.
  - rewrite H in Eh. apply str_head_none.
    now destruct (str_head (str_filter visible text)).
  - rewrite H in Eh. now apply str_head_none.
Qed.

(** ** More on the block of a document *)

Lemma closes_matched_depth ls : forall d,
  closes_matched d ls
  = match depth_after d ls with Some _ => true | None => false end.
Proof.
  induction ls as [|l ls IH]; intros d; [reflexivity|]. cbn [closes_matched depth_after].
  destruct (is_open l); [apply IH|]. destruct (is_close l); [|apply IH].
  destruct d; [reflexivity | apply IH].
Qed.

Lemma depth_after_app l1 l2 : forall d,
  depth_after d (l1 ++ l2)
  = match depth_after d l1 with
    | Some d' => depth_after d' l2
    | None => None
    end.
Proof.
  induction l1 as [|l l1 IH]; intros d; [reflexivity|]. cbn [app depth_after].
  destruct (is_open l); [apply IH|]. destruct (is_close l); [|apply IH].
  destruct d; [reflexivity | apply IH].
Qed.

Lemma depth_after_plain l ls d :
  is_open l = false -> is_close l = false ->
  depth_after d (l :: ls) = depth_after d ls.
Proof. intros Ho Hc. cbn [depth_after]. now rewrite Ho, Hc. Qed.

Lemma depth_after_closes (f : nat -> nat) l : forall d,
  List.length l <= d ->
  depth_after d (map (fun count => close_line (f count)) l)
  = Some (d - List.length l).
Proof.
  induction l as [|x l IH]; intros d Hd; cbn [map depth_after List.length] in *.
  - now rewrite Nat.sub_0_r.
  - rewrite is_open_close_line, is_close_close_line.
    destruct d as [|d]; [lia|]. rewrite IH by lia. reflexivity.
Qed.

Lemma depth_after_transition prior level :
  1 <= prior -> 1 <= level -> level <= S prior ->
  depth_after (prior - 1) (transition prior level) = Some (level - 1).
Proof.
  intros Hp Hl Hs. unfold transition.
  destruct (Nat.ltb_spec prior level) as [H|H].
  - cbn [depth_after]. rewrite is_open_open_line. f_equal. lia.
  - destruct (Nat.ltb_spec level prior) as [H'|H'].
    + rewrite (depth_after_closes (fun c => c)) by (rewrite range_down_length; lia).
      rewrite range_down_length. f_equal. lia.
    + cbn [depth_after]. f_equal. lia.
Qed.

Lemma fold_emit_depth b subs : forall st d0,
  depth_after d0 (lines st) = Some (prior_indent st - 1) ->
  1 <= prior_indent st ->
  Forall (fun h => 1 <= fst h) subs ->
  jump_excess (prior_indent st) (map fst subs) = 0 ->
  let st' := fold_left (emit_subheading b) subs st in
  depth_after d0 (lines st') = Some (prior_indent st' - 1)
  /\ 1 <= prior_indent st'.
Proof.
  induction subs as [|h subs IH]; intros st d0 Hd Hp Hs Hj; [now split|].
  inversion Hs as [|? ? Hh Hs']; subst. cbn [map jump_excess] in Hj.
  cbn [fold_left]. destruct (emit_subheading_lines b st h) as (El & Ep & _).
  apply IH; rewrite ?Ep; try assumption; try lia.
  rewrite El, depth_after_app, Hd, depth_after_app.
  rewrite depth_after_transition by lia.
  apply depth_after_plain; [apply is_open_item_line | apply is_close_item_line].
Qed.

(** With no level passed over, the list closes what it opened. *)
Lemma list_lines_depth b subs :
  subs <> [] -> Forall (fun h => 2 <= fst h) subs ->
  jump_excess 2 (map fst subs) = 0 ->
  depth_after 0 (list_lines b subs) = Some 0.
Proof.
  intros Hne Hs Hj. unfold list_lines.
  assert (Hs1 : Forall (fun h => 1 <= fst h) subs)
    by (eapply Forall_impl; [|exact Hs]; simpl; intros; lia).
  destruct (fold_emit_depth b subs (mkEmitter 2 (str_mul "  " 2) 0 ["  <ul>"]) 0
              eq_refl (le_S _ _ (le_n 1)) Hs1 Hj) as [Hd Hp].
  destruct (fold_emit_counts b subs (mkEmitter 2 (str_mul "  " 2) 0 ["  <ul>"]))
    as (_ & _ & Hl).
  cbv zeta in Hd, Hp, Hl. specialize (Hl Hne).
  set (st' := fold_left (emit_subheading b) subs _) in *.
  rewrite depth_after_app, Hd. unfold final_closes.
  rewrite (depth_after_closes (fun c => c - 1)) by (rewrite range_down_length; lia).
  rewrite range_down_length. f_equal. lia.
Qed.

Lemma block_markers base rel main subs :
  let b := base ++ replace ".md" "" rel in
  subheads (build_summary base rel main subs)
  = match subs with
    | [] => [summary_line b main; "</details>"; nl]
    | _ => (summary_line b main :: list_lines b subs ++ ["</details>"; nl])%list
    end
  /\ is_open (summary_line b main) = false
  /\ is_close (summary_line b main) = false.
Proof. repeat split. Qed.

Section BlockProperties.

Variable base_url : string.
Variable relpath : string -> string.
Variable read_lines : string -> list string.

(** X7.  When no sub-heading of a file is deeper by more than one level
    than the one before it (the first one being at depth 2 or 3), every
    closing marker of its block has its opening marker and no list is left
    open. *)
Theorem block_well_nested md_file :
  jump_excess 2 (map fst (snd (extract_headings (read_lines md_file) md_file))) = 0 ->
  closes_matched 0 (subheads (summarize base_url relpath read_lines md_file)) = true
  /\ depth_after 0 (subheads (summarize base_url relpath read_lines md_file))
     = Some 0.
Proof.
  intros Hj. rewrite closes_matched_depth.
  pose proof (subheadings_deep (read_lines md_file) md_file) as Hs.
  unfold summarize.
  destruct (extract_headings (read_lines md_file) md_file) as [m subs].
  cbn [snd] in *.
  destruct (block_markers base_url (relpath md_file) m subs) as (E & Ho & Hc).
  cbv zeta in E, Ho, Hc. rewrite E.
  destruct subs as [|h subs]; [split; reflexivity|].
  rewrite (depth_after_plain _ _ _ Ho Hc), depth_after_app.
  rewrite (list_lines_depth _ (h :: subs)) by (assumption || discriminate).
  split; reflexivity.
Qed.

(** X8.  In the block of every file the closing list markers exceed the
    opening ones by the number of levels skipped where a sub-heading is more
    than one level deeper than the one before it: the block is balanced
    exactly when no level is skipped. *)
Theorem block_marker_excess md_file :
  let blk := subheads (summarize base_url relpath read_lines md_file) in
  let depths := map fst (snd (extract_headings (read_lines md_file) md_file)) in
  count_close blk = count_open blk + jump_excess 2 depths
  /\ (count_open blk = count_close blk <-> jump_excess 2 depths = 0).
Proof.
  intros blk depths.
  assert (E : count_close blk = count_open blk + jump_excess 2 depths).
  { unfold blk, depths, summarize.
    pose proof (subheadings_deep (read_lines md_file) md_file) as Hs.
    destruct (extract_headings (read_lines md_file) md_file) as [m subs].
    cbn [snd] in *.
    destruct (block_markers base_url (relpath md_file) m subs) as (E & Ho & Hc).
    cbv zeta in E, Ho, Hc. rewrite E.
    destruct subs as [|h subs]; [reflexivity|].
    change (summary_line ?b m :: ?l)%list with ([summary_line b m] ++ l)%list.
    rewrite !count_open_app, !count_close_app.
    rewrite (list_lines_excess _ (h :: subs)) by (assumption || discriminate).
    assert (Fo : count_open [summary_line (base_url ++ replace ".md" "" (relpath md_file)) m] = 0)
      by (unfold count_open; cbn [filter]; now rewrite Ho).
    assert (Fc : count_close [summary_line (base_url ++ replace ".md" "" (relpath md_file)) m] = 0)
      by (unfold count_close; cbn [filter]; now rewrite Hc).
    rewrite Fo, Fc.
    change (count_open ["</details>"; nl]) with 0.
    change (count_close ["</details>"; nl]) with 0.
    lia. }
  split; [exact E | lia].
Qed.

End BlockProperties.

Lemma block_well_nested_witness :
  closes_matched 0
    (subheads (summarize Demo.base_url Demo.relpath Demo.read_lines "wiki/a.md"))
  = true.
Proof.
  exact (proj1 (block_well_nested Demo.base_url Demo.relpath Demo.read_lines
                  "wiki/a.md" eq_refl)).
Defined.

(** *** The list items *)

Lemma is_item_open_line n : is_item (open_line n) = false.
Proof. unfold is_item, open_line. now rewrite lstrip_indent. Qed.

Lemma is_item_close_line n : is_item (close_line n) = false.
Proof. unfold is_item, close_line. now rewrite lstrip_indent. Qed.

Lemma lstrip_item_line b k t :
  lstrip (item_line b (str_mul "  " k) t) = item_line b "" t.
Proof. unfold item_line. now rewrite lstrip_indent. Qed.

Lemma is_item_item_line b k t : is_item (item_line b (str_mul "  " k) t) = true.
Proof.
  unfold is_item. rewrite lstrip_item_line. reflexivity.
Qed.

Lemma items_of_transition prior level : filter is_item (transition prior level) = [].
Proof.
  unfold transition. destruct (prior <? level)%nat.
  - cbn [filter]. now rewrite is_item_open_line.
  - destruct (level <? prior)%nat; [|reflexivity].
    apply filter_none. intros x Hx. apply in_map_iff in Hx.
    destruct Hx as (n & <- & _). apply is_item_close_line.
Qed.

Lemma emit_subheading_indent b st h :
  exists k, spaces (emit_subheading b st h) = str_mul "  " k
  \/ spaces (emit_subheading b st h) = spaces st.
Proof.
  unfold emit_subheading.
  destruct (prior_indent st <? fst h)%nat; [exists (fst h + 1); now left|].
  destruct (fst h <? prior_indent st)%nat; [exists (fst h); now left|].
  exists 0. now right.
Qed.

Lemma fold_emit_items b subs : forall st,
  (exists k, spaces st = str_mul "  " k) ->
  map lstrip (filter is_item (lines (fold_left (emit_subheading b) subs st)))
  = (map lstrip (filter is_item (lines st))
       ++ map (fun h => item_line b "" (snd h)) subs)%list.
Proof.
  induction subs as [|h subs IH]; intros st Hk; [cbn; now rewrite app_nil_r|].
  cbn [fold_left map].
  assert (Hk' : exists k, spaces (emit_subheading b st h) = str_mul "  " k).
  { destruct (emit_subheading_indent b st h) as [k [E|E]]; [eauto|].
    destruct Hk as [k' Hk]. exists k'. congruence. }
  rewrite (IH _ Hk'). destruct (emit_subheading_lines b st h) as (El & _ & _).
  rewrite El. destruct Hk' as [k E]. rewrite E.
  rewrite !filter_app, items_of_transition. cbn [filter app].
  rewrite is_item_item_line, !map_app. cbn [map].
  rewrite lstrip_item_line, <- app_assoc. reflexivity.
Qed.

(** X9.  The list items of a block are one for each sub-heading, in their
    order; without its indentation each is the link to the anchor of the
    stripped heading on the page, around the stripped heading. *)
Theorem one_item_per_subheading base rel main subs :
  map lstrip (filter is_item (subheads (build_summary base rel main subs)))
  = map (fun h => item_line (base ++ replace ".md" "" rel) "" (snd h)) subs.
Proof.
  destruct (block_markers base rel main subs) as (E & _ & _). cbv zeta in E.
  rewrite E. destruct subs as [|h subs]; [reflexivity|].
  set (b := base ++ replace ".md" "" rel).
  change (summary_line b main :: ?l)%list with ([summary_line b main] ++ l)%list.
  rewrite !filter_app, !map_app. unfold list_lines. rewrite filter_app, map_app.
  rewrite (fold_emit_items b (h :: subs)).
  2:{ exists 2. reflexivity. }
  replace (filter is_item (final_closes _)) with (@nil string).
  - change (filter is_item [summary_line b main]) with (@nil string).
    change (filter is_item ["</details>"; nl]) with (@nil string).
    cbn [lines]. change (filter is_item ["  <ul>"]) with (@nil string).
    cbn [map app]. now rewrite !app_nil_r.
  - symmetry. apply filter_none. intros x Hx. unfold final_closes in Hx.
    apply in_map_iff in Hx. destruct Hx as (n & <- & _). apply is_item_close_line.
Qed.

(** X10.  For a page whose relative path has [.md] at its end only, the block
    starts with the line of the link to the path without that extension
    after the base address, around the title, and it ends with the closing
    [</details>] and an empty line. *)
Theorem block_frame base stem main subs :
  contains ".md" stem = false ->
  exists middle,
    subheads (build_summary base (stem ++ ".md") main subs)
    = (summary_line (base ++ stem) main :: middle ++ ["</details>"; nl])%list.
Proof.
  intros H. unfold build_summary. rewrite (replace_md_suffix stem H).
  destruct subs as [|h subs].
  - now exists [].
  - now exists (list_lines (base ++ stem) (h :: subs)).
Qed.

Lemma block_frame_witness :
  exists middle,
    subheads (build_summary Demo.base_url ("guide/setup" ++ ".md") "Setup" [(2, "Install")])
    = (summary_line (Demo.base_url ++ "guide/setup") "Setup"
         :: middle ++ ["</details>"; nl])%list.
Proof.
  exact (block_frame Demo.base_url "guide/setup" "Setup" [(2, "Install")] eq_refl).
Defined.

(** ** More on groups *)

Lemma member_test name val :
  existsb (fun secname => String.eqb secname name) val = true <-> In name val.
Proof.
  rewrite existsb_exists. split.
  - intros (x & Hx & E). apply String.eqb_eq in E. now subst.
  - intros H. exists name. split; [exact H | apply String.eqb_refl].
Qed.

Lemma member_test_false name val :
  existsb (fun secname => String.eqb secname name) val = false <-> ~ In name val.
Proof.
  rewrite <- member_test.
  destruct (existsb (fun secname => String.eqb secname name) val).
  - split; [discriminate | intros H; now destruct H].
  - split; [intros _ E; discriminate | reflexivity].
Qed.

Lemma get_group_none defs name :
  get_group_for_summary defs name = None <-> ~ In name (all_members defs).
Proof.
  unfold all_members. induction defs as [|[key val] defs IH]; cbn [get_group_for_summary map snd List.concat].
  - split; [intros _ [] | reflexivity].
  - rewrite in_app_iff.
    destruct (existsb (fun secname => String.eqb secname name) val) eqn:E.
    + apply member_test in E. split; [discriminate | intros H; destruct H; now left].
    + apply member_test_false in E. rewrite IH. tauto.
Qed.

(** X11.  The group of a title is the first group, in the order of the
    definition, that lists it, also when later groups list it too; there is
    none exactly when no group lists it. *)
Theorem first_listing_group_wins pre g ms post name :
  In name ms -> ~ In name (all_members pre) ->
  get_group_for_summary (pre ++ (g, ms) :: post)%list name = Some g
  /\ (forall defs, get_group_for_summary defs name = None
                   <-> ~ In name (all_members defs)).
Proof.
  intros Hin Hpre. split; [|intros defs; apply get_group_none].
  induction pre as [|[key val] pre IH]; cbn [app get_group_for_summary].
  - apply member_test in Hin. now rewrite Hin.
  - unfold all_members in Hpre. cbn [map snd List.concat] in Hpre.
    rewrite in_app_iff in Hpre.
    assert (E : existsb (fun secname => String.eqb secname name) val = false)
      by (apply member_test_false; tauto).
    rewrite E. apply IH. unfold all_members. tauto.
Qed.

Lemma first_listing_group_wins_witness :
  get_group_for_summary
    ([("Guides", ["Setup"; "Usage"])] ++ ("Reference", ["API"; "FAQ"])
       :: [("Extras", ["FAQ"])])%list "FAQ"
  = Some "Reference".
Proof.
  refine (proj1 (first_listing_group_wins [("Guides", ["Setup"; "Usage"])]
                   "Reference" ["API"; "FAQ"] [("Extras", ["FAQ"])] "FAQ" _ _)).
  - right. now left.
  - cbn. intros [H|[H|[]]]; discriminate.
Defined.

Lemma get_summarys_none defs g :
  get_summarys_for_group defs g = None <-> ~ In g (map fst defs).
Proof.
  induction defs as [|[key val] defs IH]; cbn [get_summarys_for_group map fst].
  - split; [intros _ [] | reflexivity].
  - destruct (String.eqb_spec key g) as [E|E].
    + split; [discriminate | intros H; destruct H; now left].
    + rewrite IH. cbn [In]. tauto.
Qed.

Lemma get_summarys_nodup defs g ms :
  NoDup (map fst defs) -> In (g, ms) defs ->
  get_summarys_for_group defs g = Some ms.
Proof.
  induction defs as [|[key val] defs IH]; intros Hn Hin; [destruct Hin|].
  cbn [map fst] in Hn. inversion Hn as [|? ? Hk Hn']; subst.
  cbn [get_summarys_for_group]. destruct Hin as [E|Hin].
  - injection E as -> ->. now rewrite String.eqb_refl.
  - destruct (String.eqb_spec key g) as [->|_]; [|now apply IH].
    destruct Hk. apply in_map_iff. now exists (g, ms).
Qed.

(** X12.  The members of a group are found for every name of the definition
    and for no other name; when no name is declared twice they are the
    members declared with it. *)
Theorem group_lookup defs g :
  (get_summarys_for_group defs g = None <-> ~ In g (map fst defs))
  /\ (NoDup (map fst defs) ->
      forall ms, In (g, ms) defs -> get_summarys_for_group defs g = Some ms).
Proof.
  split; [apply get_summarys_none|]. intros Hn ms. now apply get_summarys_nodup.
Qed.

Lemma group_lookup_witness :
  get_summarys_for_group Demo.groups "Empty" = Some ["Nope"].
Proof.
  refine (proj2 (group_lookup Demo.groups "Empty") _ ["Nope"] _).
  - repeat constructor; cbn; intuition discriminate.
  - right. now left.
Defined.

Lemma write_member_first pre s post :
  (forall x, In x pre -> summary_name x <> summary_name s) ->
  write_member (pre ++ s :: post)%list (summary_name s) = [block s].
Proof.
  intros H. unfold write_member. rewrite filter_app.
  rewrite (filter_none _ pre).
  - cbn [app filter]. now rewrite String.eqb_refl.
  - intros x Hx. apply String.eqb_neq. now apply H.
Qed.

(** X13.  For a title of a member list the block written is that of the
    first document with this title, whatever documents follow it, also
    with the same title; for a title that no document has nothing is
    written. *)
Theorem first_document_of_title pre s post :
  (forall x, In x pre -> summary_name x <> summary_name s) ->
  write_member (pre ++ s :: post)%list (summary_name s) = [block s]
  /\ (forall sl item, (forall x, In x sl -> summary_name x <> item) ->
                      write_member sl item = []).
Proof.
  intros H. split; [now apply write_member_first|].
  intros sl item. apply write_member_absent.
Qed.

Lemma first_document_of_title_witness :
  write_member
    ([mkSummary "A" "Ungrouped" ["a"]] ++ mkSummary "B" "Ungrouped" ["first"]
       :: [mkSummary "B" "Ungrouped" ["second"]])%list "B"
  = ["first"].
Proof.
  refine (proj1 (first_document_of_title [mkSummary "A" "Ungrouped" ["a"]]
                   (mkSummary "B" "Ungrouped" ["first"])
                   [mkSummary "B" "Ungrouped" ["second"]] _)).
  intros x [<-|[]]. discriminate.
Defined.

(** ** The output as a whole *)

Lemma flat_map_ext_in {A B} (f g : A -> list B) l :
  (forall x, In x l -> f x = g x) -> flat_map f l = flat_map g l.
Proof.
  induction l as [|x l IH]; intros H; [reflexivity|]. cbn [flat_map].
  rewrite (H x (or_introl eq_refl)), IH; [reflexivity|].
  intros y Hy. apply H. now right.
Qed.

Lemma flat_map_map {A B C} (f : B -> list C) (g : A -> B) l :
  flat_map f (map g l) = flat_map (fun x => f (g x)) l.
Proof. induction l as [|x l IH]; cbn; [reflexivity | now rewrite IH]. Qed.

Lemma map_flat_map {A B C} (f : B -> C) (g : A -> list B) l :
  map f (flat_map g l) = flat_map (fun x => map f (g x)) l.
Proof.
  induction l as [|x l IH]; cbn [flat_map map]; [reflexivity|].
  now rewrite map_app, IH.
Qed.

Lemma filter_all {A} (f : A -> bool) l :
  (forall x, In x l -> f x = true) -> filter f l = l.
Proof.
  induction l as [|x l IH]; intros H; [reflexivity|]. cbn [filter].
  rewrite (H x (or_introl eq_refl)), IH; [reflexivity|].
  intros y Hy. apply H. now right.
Qed.

Lemma filter_split_perm {A} (f : A -> bool) l :
  Permutation (filter (fun x => negb (f x)) l ++ filter f l) l.
Proof.
  induction l as [|x l IH]; [constructor|]. cbn [filter].
  destruct (f x); cbn [negb app].
  - apply Permutation_sym, Permutation_cons_app, Permutation_sym, IH.
  - now constructor.
Qed.

(** With no name declared twice, the groups are written as the definition
    lists them. *)
Lemma groups_as_declared defs sl :
  NoDup (map fst defs) ->
  flat_map (write_group defs sl) (map fst defs)
  = flat_map (fun d => group_header (fst d) :: flat_map (write_member sl) (snd d))
      defs.
Proof.
  intros Hn. rewrite flat_map_map. apply flat_map_ext_in.
  intros [g ms] Hin. unfold write_group. cbn [fst snd].
  now rewrite (get_summarys_nodup defs g ms Hn Hin).
Qed.

Lemma declared_blocks defs sl :
  Forall (fun s => is_header (block s) = false) sl ->
  filter (fun chunk => negb (is_header chunk))
    (flat_map (fun d => group_header (fst d) :: flat_map (write_member sl) (snd d))
       defs)
  = flat_map (write_member sl) (all_members defs).
Proof.
  intros Hsl. rewrite Forall_forall in Hsl. unfold all_members.
  induction defs as [|[g ms] defs IH]; [reflexivity|].
  cbn [flat_map map fst snd List.concat filter app].
  rewrite is_header_group_header. cbn [negb].
  rewrite filter_app, IH, flat_map_app. f_equal.
  apply filter_all. intros x Hx. apply in_flat_map in Hx.
  destruct Hx as (item & _ & Hx). apply write_member_in in Hx.
  destruct Hx as (sec & Hsec & ->). now rewrite (Hsl sec Hsec).
Qed.

Lemma filter_title_unique sl item :
  NoDup (map summary_name sl) ->
  filter (fun s => String.eqb (summary_name s) item) sl = []
  \/ exists s, filter (fun s => String.eqb (summary_name s) item) sl = [s].
Proof.
  induction sl as [|x sl IH]; intros Hn; [now left|].
  cbn [map] in Hn. inversion Hn as [|? ? Hx Hn']; subst. cbn [filter].
  destruct (String.eqb_spec (summary_name x) item) as [E|E]; [|now apply IH].
  right. exists x. f_equal. apply filter_none. intros y Hy.
  apply String.eqb_neq. intros E'. apply Hx. apply in_map_iff.
  exists y. split; [congruence | exact Hy].
Qed.

Lemma write_member_unique defs sl item :
  NoDup (map summary_name sl) ->
  write_member (map (assign_group defs) sl) item
  = map block (filter (fun s => String.eqb (summary_name s) item) sl).
Proof.
  intros Hn. unfold write_member. rewrite filter_map_swap.
  rewrite (filter_ext _ (fun s => String.eqb (summary_name s) item))
    by (intros s; now rewrite summary_name_assign_group).
  destruct (filter_title_unique sl item Hn) as [E|[s E]]; rewrite E; [reflexivity|].
  cbn. now rewrite block_assign_group.
Qed.

Lemma in_summaries_of sl items s :
  In s (summaries_of sl items) <-> In s sl /\ In (summary_name s) items.
Proof.
  unfold summaries_of. rewrite in_flat_map. split.
  - intros (item & Hi & Hs). apply filter_In in Hs. destruct Hs as [Hs E].
    apply String.eqb_eq in E. subst. now split.
  - intros [Hs Hi]. exists (summary_name s). split; [exact Hi|].
    apply filter_In. split; [exact Hs | apply String.eqb_refl].
Qed.

Lemma summaries_of_nodup sl items :
  NoDup sl -> NoDup items -> NoDup (summaries_of sl items).
Proof.
  intros Hsl. induction 1 as [|item items Hi Hn IH]; [constructor|].
  unfold summaries_of. cbn [flat_map]. apply NoDup_app.
  - now apply NoDup_filter.
  - exact IH.
  - intros s Hs Hs'. apply filter_In in Hs. destruct Hs as [_ E].
    apply String.eqb_eq in E. apply in_summaries_of in Hs'.
    destruct Hs' as [_ Hs']. congruence.
Qed.

Lemma default_section_blocks u :
  (forall s, In s u -> is_header (block s) = false) ->
  filter (fun chunk => negb (is_header chunk)) (default_section u) = map block u.
Proof.
  intros H. destruct u as [|s u]; [reflexivity|]. unfold default_section.
  cbn [filter]. rewrite is_header_group_header. cbn [negb].
  apply filter_all. intros x Hx. apply in_map_iff in Hx.
  destruct Hx as (sec & <- & Hsec). now rewrite (H sec Hsec).
Qed.

Section WholeOutput.

Variable base_url : string.
Variable relpath : string -> string.
Variable read_lines : string -> list string.

Local Abbreviation summarize' := (summarize base_url relpath read_lines).
Local Abbreviation collect' := (collect base_url relpath read_lines).
Local Abbreviation generate' := (generate_sidebar base_url relpath read_lines).

(** X14.  When no group name is declared twice or is [Ungrouped], no title
    is listed twice and no two documents have the same title, every
    document is written exactly once: the blocks of the output are those of
    the documents of the member lists, in the order of the lists, and then
    those of the documents that no list has, in the order of the input. *)
Theorem every_document_once defs files :
  NoDup (map fst defs) -> ~ In default_group_name (map fst defs) ->
  NoDup (all_members defs) -> NoDup (map summary_name (collect' files)) ->
  let sl := collect' files in
  let order := (summaries_of sl (all_members defs)
                  ++ filter (unmatched defs) sl)%list in
  filter (fun chunk => negb (is_header chunk)) (generate' (Some defs) files)
  = map block order
  /\ Permutation order sl.
Proof.
  intros Hk Hd Hm Ht. cbv zeta. split.
  - rewrite generate_grouped, ungrouped_unmatched, default_section_assign by exact Hd.
    rewrite filter_app, (groups_as_declared defs _ Hk).
    rewrite (declared_blocks defs _ (assigned_built base_url relpath read_lines defs files)).
    rewrite default_section_blocks.
    2:{ intros s Hs. apply filter_In in Hs. destruct Hs as [Hs _].
        exact (proj1 (collect_built base_url relpath read_lines files s Hs)). }
    rewrite map_app. f_equal.
    unfold summaries_of. rewrite map_flat_map. apply flat_map_ext.
    intros item. now apply write_member_unique.
  - set (sl := collect' files) in *.
    apply (Permutation_trans (l' := (filter (fun s => negb (unmatched defs s)) sl
                                       ++ filter (unmatched defs) sl)%list));
      [|apply filter_split_perm].
    apply Permutation_app_tail.
    pose proof (NoDup_map_inv _ _ Ht) as Hsl. apply NoDup_Permutation.
    + now apply summaries_of_nodup.
    + now apply NoDup_filter.
    + intros s. rewrite in_summaries_of, filter_In. unfold unmatched.
      pose proof (get_group_none defs (summary_name s)) as G.
      destruct (get_group_for_summary defs (summary_name s)) eqn:E; cbn [negb].
      * split; intros [Hs _]; split; try assumption; try reflexivity.
        destruct (in_dec string_dec (summary_name s) (all_members defs)) as [I|I];
          [exact I|]. apply G in I. discriminate.
      * split; intros [Hs H]; [|discriminate].
        destruct (proj1 G eq_refl H).
Qed.

(** X15.  Every chunk of the output is the header of a declared group, the
    header of the default group, or the block of an input file that is not
    skipped: nothing of a skipped file is written. *)
Theorem chunks_are_headers_or_blocks summary_map files chunk :
  In chunk (generate' summary_map files) ->
  (exists g, chunk = group_header g
             /\ (g = default_group_name
                 \/ exists defs, summary_map = Some defs /\ In g (map fst defs)))
  \/ (exists f, In f files /\ skipped f = false /\ chunk = block (summarize' f)).
Proof.
  assert (Hb : forall s, In s (collect' files) ->
                 exists f, In f files /\ skipped f = false /\ block s = block (summarize' f)).
  { intros s Hs. rewrite collect_processed in Hs. apply in_map_iff in Hs.
    destruct Hs as (f & <- & Hf). apply filter_In in Hf. destruct Hf as [Hf Hk].
    exists f. repeat split.
    - now apply (Permutation_in _ (sorted_perm files)).
    - now apply negb_true_iff. }
  destruct summary_map as [defs|].
  - rewrite generate_grouped. intros H. apply in_app_or in H. destruct H as [H|H].
    + destruct (declared_chunks defs _ (map fst defs)
                  (assigned_built base_url relpath read_lines defs files)
                  (incl_refl _)) as [_ Hin].
      destruct (Hin chunk H) as [(g & Hg & ->)|(sec & Hsec & ->)].
      * left. exists g. split; [reflexivity|]. right. now exists defs.
      * right. apply in_map_iff in Hsec. destruct Hsec as (s & <- & Hs).
        rewrite block_assign_group. destruct (Hb s Hs) as (f & Hf & Hk & E).
        exists f. now rewrite E.
    + destruct (filter ungrouped (map (assign_group defs) (collect' files)))
        as [|s u] eqn:E; [destruct H|].
      destruct H as [<-|H]; [left; exists default_group_name; now split; [|left]|].
      right. apply in_map_iff in H. destruct H as (sec & <- & Hsec).
      assert (Hin : In sec (filter ungrouped (map (assign_group defs) (collect' files))))
        by (rewrite E; exact Hsec).
      apply filter_In in Hin. destruct Hin as [Hin _].
      apply in_map_iff in Hin. destruct Hin as (s0 & <- & Hs0).
      rewrite block_assign_group. destruct (Hb s0 Hs0) as (f & Hf & Hk & E').
      exists f. now rewrite E'.
  - cbn [generate_sidebar write_sidebar]. intros H. right.
    apply in_map_iff in H. destruct H as (s & <- & Hs).
    destruct (Hb s Hs) as (f & Hf & Hk & E). exists f. now rewrite E.
Qed.

End WholeOutput.

Ltac distinct_strings :=
  repeat (constructor; [cbn; intuition discriminate|]); constructor.

Lemma every_document_once_witness :
  Permutation
    (summaries_of (collect Demo.base_url Demo.relpath Demo.read_lines Demo.files)
       (all_members Demo.groups)
     ++ filter (unmatched Demo.groups)
          (collect Demo.base_url Demo.relpath Demo.read_lines Demo.files))%list
    (collect Demo.base_url Demo.relpath Demo.read_lines Demo.files).
Proof.
  refine (proj2 (every_document_once Demo.base_url Demo.relpath Demo.read_lines
                   Demo.groups Demo.files _ _ _ _)).
  - cbn. distinct_strings.
  - cbn. intuition discriminate.
  - cbn. distinct_strings.
  - vm_compute. distinct_strings.
Defined.

Lemma chunks_are_headers_or_blocks_witness :
  (exists g, group_header "Guides" = group_header g
             /\ (g = default_group_name
                 \/ exists defs, Some Demo.groups = Some defs /\ In g (map fst defs)))
  \/ (exists f, In f Demo.files /\ skipped f = false
                /\ group_header "Guides"
                   = block (summarize Demo.base_url Demo.relpath Demo.read_lines f)).
Proof.
  refine (chunks_are_headers_or_blocks Demo.base_url Demo.relpath Demo.read_lines
            (Some Demo.groups) Demo.files (group_header "Guides") _).
  vm_compute. left. reflexivity.
Defined.

(** ** Finding the files *)

Lemma endswith_app a s suffix :
  endswith s suffix = true -> endswith (a ++ s) suffix = true.
Proof.
  intros H. induction a as [|c a IH]; [exact H|].
  cbn [append endswith]. rewrite IH. apply orb_true_r.
Qed.

Lemma path_join_tail a b : exists pre, path_join a b = pre ++ b.
Proof.
  unfold path_join. destruct (prefix "/" b); [now exists ""|].
  destruct (String.eqb a "" || endswith a "/"); [now exists a|].
  exists (a ++ "/"). now rewrite append_assoc.
Qed.

Lemma flat_map_flat_map {A B C} (f : B -> list C) (g : A -> list B) l :
  flat_map f (flat_map g l) = flat_map (fun x => flat_map f (g x)) l.
Proof.
  induction l as [|x l IH]; cbn [flat_map]; [reflexivity|].
  now rewrite flat_map_app, IH.
Qed.

Lemma tree_induction (P : tree -> Prop) :
  (forall name link files dirs, Forall P dirs -> P (Dir name link files dirs)) ->
  forall t, P t.
Proof.
  intros H.
  exact (fix IH (t : tree) : P t :=
           match t with
           | Dir name link files dirs =>
               H name link files dirs
                 ((fix all (ds : list tree) : Forall P ds :=
                     match ds with
                     | [] => Forall_nil P
                     | d :: ds' => Forall_cons d (IH d) (all ds')
                     end) dirs)
           end).
Qed.

Lemma prefix_self_app a x : prefix a (a ++ x) = true.
Proof.
  induction a as [|c a IH]; [apply prefix_empty|]. cbn [append prefix].
  destruct (ascii_dec c c); [exact IH | congruence].
Qed.

Lemma prefix_split a : forall b, prefix a b = true -> exists x, b = a ++ x.
Proof.
  induction a as [|c a IH]; intros b H; [now exists b|].
  destruct b as [|d b]; [discriminate|]. cbn [prefix] in H.
  destruct (ascii_dec c d) as [->|]; [|discriminate].
  destruct (IH b H) as [x ->]. now exists x.
Qed.

Lemma prefix_trans a b c :
  prefix a b = true -> prefix b c = true -> prefix a c = true.
Proof.
  intros Hab Hbc. destruct (prefix_split a b Hab) as [x ->].
  destruct (prefix_split _ c Hbc) as [y ->].
  rewrite append_assoc. apply prefix_self_app.
Qed.

Lemma path_join_under a b : prefix "/" b = false -> prefix a (path_join a b) = true.
Proof.
  intros H. unfold path_join. rewrite H.
  destruct (String.eqb a "" || endswith a "/"); apply prefix_self_app.
Qed.

(** The directories that the walk visits lie under its top, and their
    names of files start with no slash. *)
Lemma walk_under t : forall top,
  names_ok t = true ->
  Forall (fun entry =>
            prefix top (fst (fst entry)) = true
            /\ forallb (fun file => negb (prefix "/" file)) (snd entry) = true)
    (walk top t).
Proof.
  induction t as [name link files dirs IH] using tree_induction.
  intros top Hok. cbn [names_ok] in Hok. apply andb_prop in Hok.
  destruct Hok as [Hf Hd]. cbn [walk]. constructor.
  - cbn [fst snd]. split; [|exact Hf].
    rewrite <- (append_nil_r top) at 2. apply prefix_self_app.
  - apply Forall_flat_map. rewrite Forall_forall in IH. apply Forall_forall.
    intros sub Hsub. destruct (dir_link sub); [constructor|].
    rewrite forallb_forall in Hd. specialize (Hd sub Hsub).
    apply andb_prop in Hd. destruct Hd as [Hn Hs].
    apply negb_true_iff in Hn.
    eapply Forall_impl; [|exact (IH sub Hsub _ Hs)].
    intros entry [Hp Hfs]. split; [|exact Hfs].
    exact (prefix_trans _ _ _ (path_join_under top _ Hn) Hp).
Qed.

(** X16.  Every path found ends with [.md], and when no name of the listing
    starts with a slash every path found starts with the path of the
    directory searched.  The paths found are those of the files of the
    directory whose name ends with [.md], and then what is found in each
    sub-directory that is no symbolic link, in turn. *)
Theorem markdown_files_found directory :
  (forall t, Forall (fun p => endswith p ".md" = true)
               (get_markdown_files directory t))
  /\ (forall t, names_ok t = true ->
                Forall (fun p => prefix directory p = true)
                  (get_markdown_files directory t))
  /\ (forall name link files dirs,
        get_markdown_files directory (Dir name link files dirs)
        = (map (path_join directory)
             (filter (fun file => endswith file ".md") files)
           ++ flat_map
                (fun sub =>
                   get_markdown_files (path_join directory (dir_name sub)) sub)
                (filter (fun sub => negb (dir_link sub)) dirs))%list).
Proof.
  split; [|split].
  - intros t. unfold get_markdown_files. rewrite Forall_forall. intros p Hp.
    apply in_flat_map in Hp. destruct Hp as ([[root ds] fs] & _ & Hp).
    apply in_map_iff in Hp. destruct Hp as (f & <- & Hf).
    apply filter_In in Hf. destruct Hf as [_ Hf].
    destruct (path_join_tail root f) as [pre ->]. now apply endswith_app.
  - intros t Hok. unfold get_markdown_files. rewrite Forall_forall. intros p Hp.
    apply in_flat_map in Hp. destruct Hp as ([[root ds] fs] & He & Hp).
    pose proof (walk_under t directory Hok) as Hw. rewrite Forall_forall in Hw.
    destruct (Hw _ He) as [Hr Hfs]. cbn [fst snd] in Hr, Hfs.
    apply in_map_iff in Hp. destruct Hp as (f & <- & Hf).
    apply filter_In in Hf. destruct Hf as [Hf _].
    rewrite forallb_forall in Hfs. specialize (Hfs f Hf).
    apply negb_true_iff in Hfs.
    exact (prefix_trans _ _ _ Hr (path_join_under root f Hfs)).
  - intros name link files dirs. unfold get_markdown_files.
    cbn [walk flat_map]. f_equal. rewrite flat_map_flat_map.
    induction dirs as [|sub dirs IH]; [reflexivity|]. cbn [flat_map filter].
    rewrite IH. destruct (dir_link sub); reflexivity.
Qed.

Lemma markdown_files_found_witness :
  Forall (fun p => prefix "wiki" p = true) (get_markdown_files "wiki" demo_listing).
Proof.
  exact (proj1 (proj2 (markdown_files_found "wiki")) demo_listing eq_refl).
Defined.

Lemma prefix_app sub a b : prefix sub a = true -> prefix sub (a ++ b) = true.
Proof.
  revert a. induction sub as [|c sub IH]; intros a H; [apply prefix_empty|].
  destruct a as [|x a]; [discriminate|]. cbn [append prefix] in *.
  destruct (ascii_dec c x); [now apply IH | discriminate].
Qed.

Lemma contains_app_l sub a b :
  contains sub a = true -> contains sub (a ++ b) = true.
Proof.
  induction a as [|c a IH]; cbn [contains append]; intros H.
  - rewrite orb_false_r in H. destruct sub; [apply (contains_app_r "" "" b)|discriminate].
    destruct b; reflexivity.
  - apply orb_prop in H. destruct H as [H|H].
    + change (String c (a ++ b)) with (String c a ++ b).
      now rewrite (prefix_app _ _ b H).
    + rewrite (IH H). apply orb_true_r.
Qed.

(** X17.  A file whose name contains [sidebar.md] in some letter case is
    skipped in whatever directory it is found, and so is every file found
    below a directory whose path contains it. *)
Theorem sidebar_names_skipped root file :
  (contains "sidebar.md" (lower file) = true -> skipped (path_join root file) = true)
  /\ (skipped root = true -> prefix "/" file = false ->
      skipped (path_join root file) = true).
Proof.
  unfold skipped. split.
  - intros H. destruct (path_join_tail root file) as [pre ->].
    rewrite lower_app. now apply contains_app_r.
  - intros H Hf. unfold path_join. rewrite Hf.
    destruct (String.eqb root "" || endswith root "/");
      rewrite lower_app; now apply contains_app_l.
Qed.

Lemma sidebar_names_skipped_witness :
  skipped (path_join "wiki/docs" "_SideBar.MD") = true
  /\ skipped (path_join "wiki/Sidebar.md.bak" "notes.md") = true.
Proof.
  split.
  - exact (proj1 (sidebar_names_skipped "wiki/docs" "_SideBar.MD") eq_refl).
  - exact (proj2 (sidebar_names_skipped "wiki/Sidebar.md.bak" "notes.md")
             eq_refl eq_refl).
Defined.

(** ** The address of the wiki *)

Lemma lstrip_char_pad ch n s :
  lstrip_char ch (str_mul (String ch "") n ++ s) = lstrip_char ch s.
Proof.
  induction n as [|n IH]; [reflexivity|]. cbn [str_mul append lstrip_char].
  now rewrite Ascii.eqb_refl.
Qed.

Lemma rstrip_char_all ch n : rstrip_char ch (str_mul (String ch "") n) = "".
Proof.
  induction n as [|n IH]; [reflexivity|]. cbn [str_mul append rstrip_char].
  now rewrite IH, Ascii.eqb_refl.
Qed.

Lemma rstrip_char_pad ch s n :
  rstrip_char ch (s ++ str_mul (String ch "") n) = rstrip_char ch s.
Proof.
  induction s as [|c s IH]; [apply rstrip_char_all|].
  cbn [append rstrip_char]. now rewrite IH.
Qed.

Lemma strip_char_pad ch n s m :
  strip_char ch (str_mul (String ch "") n ++ s ++ str_mul (String ch "") m)
  = strip_char ch s.
Proof.
  unfold strip_char. rewrite lstrip_char_pad.
  induction s as [|c s IH].
  - cbn [append]. rewrite <- (append_nil_r (str_mul (String ch "") m)).
    now rewrite lstrip_char_pad.
  - cbn [append lstrip_char]. destruct (Ascii.eqb c ch); [exact IH|].
    exact (rstrip_char_pad ch (String c s) m).
Qed.

Lemma wiki_url_of reposName :
  wiki_url reposName
  = Some ("https://github.com/" ++ strip_char "/" reposName ++ "/wiki/").
Proof.
  unfold wiki_url, urljoin. cbn [List.last]. cbn. f_equal.
  now rewrite append_assoc.
Qed.

(** X18.  The address of the wiki is [https://github.com/], the name of the
    repository without the slashes around it, and [/wiki/]: slashes before
    and after the name change nothing. *)
Theorem wiki_url_shape reposName n m :
  wiki_url reposName
  = Some ("https://github.com/" ++ strip_char "/" reposName ++ "/wiki/")
  /\ wiki_url (str_mul "/" n ++ reposName ++ str_mul "/" m) = wiki_url reposName.
Proof.
  split; [apply wiki_url_of|]. rewrite !wiki_url_of.
  now rewrite (strip_char_pad "/" n reposName m).
Qed.

Lemma map_fixed {A} (f : A -> A) l : Forall (fun x => f x = x) l -> map f l = l.
Proof. induction 1 as [|x l Hx _ IH]; cbn [map]; [reflexivity | now rewrite Hx, IH]. Qed.

Lemma rstrip_char_end ch s :
  endswith (rstrip_char ch s) (String ch "") = false.
Proof.
  induction s as [|c s IH]; [reflexivity|]. cbn [rstrip_char].
  destruct (rstrip_char ch s) as [|x r].
  - destruct (Ascii.eqb c ch) eqn:E; [reflexivity|].
    cbn [endswith String.eqb]. now rewrite E.
  - change (endswith (String c (String x r)) (String ch ""))
      with (String.eqb (String c (String x r)) (String ch "")
            || endswith (String x r) (String ch "")).
    rewrite IH. cbn [String.eqb]. now destruct (Ascii.eqb c ch).
Qed.

Lemma last_Forall {A} (P : A -> Prop) l d : Forall P l -> l <> [] -> P (List.last l d).
Proof.
  induction 1 as [|x l Hx Hl IH]; intros Hne; [congruence|].
  destruct l as [|y l]; [exact Hx|]. apply IH. discriminate.
Qed.

(** X19.  Without arguments [urljoin] fails.  On parts that have no slash
    at their ends it is their join with slashes, and when its last argument
    ends with a slash so does the address. *)
Theorem urljoin_parts args :
  (urljoin args = None <-> args = [])
  /\ (args <> [] -> Forall (fun x => strip_char "/" x = x) args ->
      urljoin args = Some (join "/" args))
  /\ (args <> [] -> endswith (List.last args "") "/" = true ->
      exists address, urljoin args = Some address /\ endswith address "/" = true).
Proof.
  split; [|split].
  - destruct args; split; intros H; reflexivity || discriminate.
  - intros Hne Hs. pose proof (last_Forall _ args "" Hs Hne) as Hl.
    cbv beta in Hl.
    destruct args as [|a args]; [congruence|].
    unfold urljoin. rewrite (map_fixed _ _ Hs), <- Hl.
    unfold strip_char at 1. rewrite rstrip_char_end. now rewrite append_nil_r.
  - intros Hne E. destruct args as [|a args]; [congruence|].
    unfold urljoin. rewrite E. eexists. split; [reflexivity|].
    now apply endswith_app.
Qed.

Lemma urljoin_parts_witness :
  urljoin ["https://example.org"; "org/repo"; "wiki"]
  = Some "https://example.org/org/repo/wiki"
  /\ exists address,
       urljoin ["https://example.org/"; "/org/repo/"; "/wiki/"] = Some address
       /\ endswith address "/" = true.
Proof.
  split.
  - refine (proj1 (proj2 (urljoin_parts ["https://example.org"; "org/repo"; "wiki"]))
              _ _); [discriminate | repeat constructor].
  - refine (proj2 (proj2 (urljoin_parts ["https://example.org/"; "/org/repo/"; "/wiki/"]))
              _ eq_refl). discriminate.
Defined.

(** ** Members and assigned groups *)

Lemma write_member_assign defs sl item :
  write_member (map (assign_group defs) sl) item = write_member sl item.
Proof.
  unfold write_member. rewrite filter_map_swap.
  rewrite (filter_ext _ (fun s => String.eqb (summary_name s) item))
    by (intros s; now rewrite summary_name_assign_group).
  destruct (filter (fun s => String.eqb (summary_name s) item) sl) as [|s l];
    [reflexivity|].
  cbn. now rewrite block_assign_group.
Qed.

(** X20.  The section of a declared group does not depend on the groups
    assigned to the summaries: it has the block of the first document of
    each title that its member list names, so a title listed by two groups
    is written under both. *)
Theorem sections_follow_member_lists defs sl g ms pre s post :
  write_group defs (map (assign_group defs) sl) g = write_group defs sl g
  /\ (get_summarys_for_group defs g = Some ms ->
      In (summary_name s) ms ->
      (forall x, In x pre -> summary_name x <> summary_name s) ->
      In (block s) (write_group defs (pre ++ s :: post) g)).
Proof.
  split.
  - unfold write_group. destruct (get_summarys_for_group defs g); [|reflexivity].
    f_equal. apply flat_map_ext. intros item. apply write_member_assign.
  - intros Hg Hin Hpre. unfold write_group. rewrite Hg. right.
    apply in_flat_map. exists (summary_name s). split; [exact Hin|].
    rewrite (write_member_first pre s post Hpre). now left.
Qed.

Lemma sections_follow_member_lists_witness :
  In "faq" (write_group [("Guides", ["FAQ"]); ("Reference", ["FAQ"])]
              ([] ++ mkSummary "FAQ" "Ungrouped" ["faq"] :: []) "Reference").
Proof.
  refine (proj2 (sections_follow_member_lists
                   [("Guides", ["FAQ"]); ("Reference", ["FAQ"])] []
                   "Reference" ["FAQ"] [] (mkSummary "FAQ" "Ungrouped" ["faq"]) [])
            eq_refl _ _).
  - now left.
  - intros x [].
Defined.
